(** * Beans.ie alt tag updater: a shallow embedding and its properties

  The development follows the source files of the job, one module each,
  after a module for the string operations they share:
  - [Js]      : the JavaScript string operations the code relies on;
  - [Shopify] : shopify.js, the GraphQL media client ([request],
                [verifyScopes], [getAllImages], [updateImageAltTag]);
  - [Gpt]     : gpt.js, the description generator ([generateAltTag]);
  - [Index]   : index.js, the orchestrator ([main]).

  Strings are modelled by [string]: sequences of code units below 256
  (the Latin-1 range), on which [toLowerCase], [trim] and the class [\s]
  are given exactly as ECMAScript defines them.  The remote services are
  oracles: functions from the index of a call and the number of the attempt
  to what the transport delivers.  Console logging is left out. *)

From Stdlib Require Import String Ascii List Bool Arith NArith Lia Permutation.
From Stdlib Require Import DecimalString.
Import ListNotations.

Set Implicit Arguments.

Open Scope string_scope.
Open Scope nat_scope.
Open Scope list_scope.

(* ------------------------------------------------------------------ *)
(** ** JavaScript strings *)

Module Js.

Definition code (c : ascii) : nat := nat_of_ascii c.

Definition between (lo hi : nat) (c : ascii) : bool :=
  (lo <=? code c) && (code c <=? hi).

(** WhiteSpace and LineTerminator code units below 256: TAB, LF, VT, FF,
    CR, SP and NBSP.  Both [String.prototype.trim] and the regular
    expression class [\s] use this set. *)
Definition isWhiteSpace (c : ascii) : bool :=
  between 9 13 c || (code c =? 32) || (code c =? 160).

Definition isUpper (c : ascii) : bool :=
  between 65 90 c || (between 192 222 c && negb (code c =? 215)).

Definition lowerChar (c : ascii) : ascii :=
  if isUpper c then ascii_of_nat (code c + 32) else c.

Fixpoint map (f : ascii -> ascii) (s : string) : string :=
  match s with
  | EmptyString => EmptyString
  | String c t => String (f c) (map f t)
  end.

Fixpoint existsb (p : ascii -> bool) (s : string) : bool :=
  match s with
  | EmptyString => false
  | String c t => p c || existsb p t
  end.

Fixpoint forallb (p : ascii -> bool) (s : string) : bool :=
  match s with
  | EmptyString => true
  | String c t => p c && forallb p t
  end.

(** [s.toLowerCase()] *)
Definition toLowerCase (s : string) : string := map lowerChar s.

(** [hay.includes(needle)] *)
Fixpoint includes (needle hay : string) : bool :=
  String.prefix needle hay ||
  match hay with
  | EmptyString => false
  | String _ t => includes needle t
  end.

(** [s.endsWith(suffix)] *)
Definition endsWith (suffix s : string) : bool :=
  if String.length suffix <=? String.length s
  then String.eqb
         (substring (String.length s - String.length suffix)
                    (String.length suffix) s)
         suffix
  else false.

Fixpoint trimStart (s : string) : string :=
  match s with
  | EmptyString => EmptyString
  | String c t => if isWhiteSpace c then trimStart t else s
  end.

Fixpoint trimEnd (s : string) : string :=
  match s with
  | EmptyString => EmptyString
  | String c t =>
      match trimEnd t with
      | EmptyString => if isWhiteSpace c then EmptyString
                       else String c EmptyString
      | r => String c r
      end
  end.

(** [s.trim()] *)
Definition trim (s : string) : string := trimEnd (trimStart s).

(** [s.split(sep)] for a separator of one code unit: never empty. *)
Fixpoint split (sep : ascii) (s : string) : list string :=
  match s with
  | EmptyString => [EmptyString]
  | String c t =>
      if Ascii.eqb c sep then EmptyString :: split sep t
      else match split sep t with
           | h :: r => String c h :: r
           | [] => [String c EmptyString]
           end
  end.

(** [s.replace(/a/g, b)] for single code units. *)
Definition replaceAll (a b : ascii) (s : string) : string :=
  map (fun c => if Ascii.eqb c a then b else c) s.

(** [l.join(sep)] *)
Fixpoint join (sep : string) (l : list string) : string :=
  match l with
  | [] => EmptyString
  | [x] => x
  | x :: r => (x ++ sep ++ join sep r)%string
  end.

(** Truthiness of a nullable string: [null], [undefined] and the empty
    string are falsy. *)
Definition truthy (s : option string) : bool :=
  match s with
  | Some (String _ _) => true
  | _ => false
  end.

(** [a || b] on strings. *)
Definition orElse (a : option string) (b : string) : string :=
  match a with
  | Some (String _ _ as s) => s
  | _ => b
  end.

(** Template rendering of a number. *)
Definition ofNat (n : nat) : string :=
  NilEmpty.string_of_uint (Nat.to_uint n).

Definition dquote : string := String (ascii_of_nat 34) EmptyString.

End Js.

(* ------------------------------------------------------------------ *)
(** ** shopify.js: the media client *)

Module Shopify.
Import Js.

(** What an [await] delivers: a value, or a thrown [Error] with its
    message. *)
Inductive result (A : Type) : Type :=
| Ok (a : A)
| Err (msg : string).
Arguments Err {A} msg.

(** One entry of [json.errors]: [message] and [extensions?.code]. *)
Record gql_error : Type := {
  message : string;
  ext_code : option string
}.

(** A received HTTP response with its decoded body. *)
Record response (D : Type) : Type := {
  ok : bool;
  status : nat;
  statusText : string;
  errors : option (list gql_error);
  data : D
}.

(** One [fetch]: it throws (network failure, undecodable body) or it
    delivers a response. *)
Inductive fetch_outcome (D : Type) : Type :=
| FetchThrows (msg : string)
| FetchResponse (r : response D).
Arguments FetchThrows {D} msg.

(** The transport seen by one logical request: attempt number to outcome. *)
Definition transport (D : Type) : Type := nat -> fetch_outcome D.

Definition maxAttempts : nat := 3.

Definition costExceededMessage : string :=
  ("Query cost exceeded. Reduce the " ++ dquote ++ "first" ++ dquote
     ++ " parameter or use bulk operations.")%string.

Definition maxRetryMessage : string :=
  "Max retry attempts reached for GraphQL request.".

(** How the [try] block of one iteration of [request] is left. *)
Inductive try_exit (D : Type) : Type :=
| Continue429
| Return (d : D)
| Throw (msg : string).
Arguments Continue429 {D}.
Arguments Throw {D} msg.

Definition joinMessages (es : list gql_error) : string :=
  join ", " (List.map message es).

Definition try_body {D : Type} (o : fetch_outcome D) : try_exit D :=
  match o with
  | FetchThrows msg => Throw msg
  | FetchResponse r =>
      if negb (ok r) then
        if status r =? 429 then Continue429
        else if match errors r with
                | Some es =>
                    List.existsb
                      (fun e =>
                         match ext_code e with
                         | Some c => String.eqb c "MAX_COST_EXCEEDED"
                         | None => false
                         end) es
                | None => false
                end
        then Throw costExceededMessage
        else Throw ("HTTP " ++ ofNat (status r) ++ ": " ++
                    orElse (option_map joinMessages (errors r))
                           (statusText r))%string
      else
        match errors r with
        | Some es => Throw ("GraphQL errors: " ++ joinMessages es)%string
        | None => Return (data r)
        end
  end.

(** The outcome of one logical request, with the number of [fetch] calls
    made and the waits between them (milliseconds). *)
Record request_run (D : Type) : Type := {
  outcome : result D;
  fetches : nat;
  delays : list nat
}.

Definition retryable (msg : string) : bool :=
  includes "ETIMEDOUT" msg || includes "429" msg.

(** The [while (attempts < maxAttempts)] loop of [request]; [None] only
    when [fuel] runs out. *)
Fixpoint request_loop {D : Type} (fuel : nat) (net : transport D)
         (attempts sent : nat) (waits : list nat)
  : option (request_run D) :=
  if attempts <? maxAttempts then
    match fuel with
    | O => None
    | S fuel' =>
        match try_body (net sent) with
        | Continue429 =>
            let attempts' := S attempts in
            request_loop fuel' net attempts' (S sent)
                         (waits ++ [1000 * attempts'])
        | Return d =>
            Some {| outcome := Ok d; fetches := S sent; delays := waits |}
        | Throw msg =>
            let attempts' := S attempts in
            if retryable msg && (attempts' <? maxAttempts) then
              request_loop fuel' net attempts' (S sent)
                           (waits ++ [1000 * attempts'])
            else
              Some {| outcome := Err msg; fetches := S sent;
                      delays := waits |}
        end
    end
  else
    Some {| outcome := Err maxRetryMessage; fetches := sent;
            delays := waits |}.

(** [request(query, variables)].  The loop needs at most [maxAttempts]
    iterations (lemma [request_loop_total]), so the last branch is dead. *)
Definition request {D : Type} (net : transport D) : request_run D :=
  match request_loop maxAttempts net 0 0 [] with
  | Some r => r
  | None => {| outcome := Err maxRetryMessage; fetches := 0; delays := [] |}
  end.

(** Message of the [TypeError] raised when a property of [null] or
    [undefined] is read. *)
Definition typeErrorMessage : string :=
  "Cannot read properties of undefined".

(** [data.appInstallation.accessScopes] as the list of handles, [None]
    when the path is absent. *)
Definition scopes_data : Type := option (list string).

Definition includesScope (granted : list string) (scope : string) : bool :=
  List.existsb (String.eqb scope) granted.

(** [verifyScopes(requiredScopes)] *)
Definition verifyScopes (requiredScopes : list string)
           (net : transport scopes_data) : result bool :=
  match outcome (request net) with
  | Ok (Some grantedScopes) =>
      Ok (List.forallb (includesScope grantedScopes) requiredScopes)
  | Ok None => Err typeErrorMessage
  | Err msg => Err msg
  end.

(** The listing payload. *)
Record image_ref : Type := { image_url : option string }.

Record node : Type := {
  node_id : string;
  alt : option string;
  image : option image_ref
}.

Record edge : Type := { edge_node : node; cursor : string }.

Record page_info : Type := {
  hasNextPage : bool;
  endCursor : option string
}.

Record files_payload : Type := {
  edges : list edge;
  pageInfo : page_info
}.

(** [response?.files] *)
Definition files_data : Type := option files_payload.

Record MediaAsset : Type := {
  id : string;
  altText : option string;
  filename : string;
  url : string
}.

(** [edge.node.image?.url] *)
Definition nodeUrl (n : node) : option string :=
  match image n with
  | Some i => image_url i
  | None => None
  end.

(** The callback of [files.edges.map] in [getAllImages]. *)
Definition assetOfEdge (e : edge) : MediaAsset :=
  let n := edge_node e in
  let fromId := last (split "/" (node_id n)) EmptyString in
  let filename :=
    if truthy (nodeUrl n) then
      let urlParts := split "/" (orElse (nodeUrl n) EmptyString) in
      orElse (Some (hd EmptyString
                       (split "?" (last urlParts EmptyString))))
             fromId
    else fromId in
  {| id := node_id n;
     altText := alt n;
     filename := filename;
     url := orElse (nodeUrl n) EmptyString |}.

(** The variables of one listing request. *)
Record page_request : Type := { first : nat; after : option string }.

Record listing_run : Type := {
  listed : result (list MediaAsset);
  page_requests : list page_request
}.

Definition invalidResponseMessage : string :=
  "Invalid response from Shopify GraphQL API".

(** The [while (hasNextPage)] loop of [getAllImages]: [net k] is the
    transport of the [k]-th listing request.  [None] when [fuel] runs
    out (the remote may announce pages for ever). *)
Fixpoint getAllImages_loop (fuel : nat)
         (net : nat -> transport files_data) (k : nat)
         (images : list MediaAsset) (after0 : option string)
         (more : bool) (log : list page_request) : option listing_run :=
  if more then
    match fuel with
    | O => None
    | S fuel' =>
        let log' := (log ++ [{| first := 50; after := after0 |}])%list in
        match outcome (request (net k)) with
        | Err msg => Some {| listed := Err msg; page_requests := log' |}
        | Ok None =>
            Some {| listed := Err invalidResponseMessage;
                    page_requests := log' |}
        | Ok (Some files) =>
            getAllImages_loop fuel' net (S k)
              (images ++ List.map assetOfEdge (edges files))%list
              (endCursor (pageInfo files))
              (hasNextPage (pageInfo files)) log'
        end
    end
  else Some {| listed := Ok images; page_requests := log |}.

(** [getAllImages()] *)
Definition getAllImages (fuel : nat) (net : nat -> transport files_data)
  : option listing_run :=
  getAllImages_loop fuel net 0 [] None true [].

(** The assets of a sequence of pages, in page order. *)
Definition assetsOf (pages : list files_payload) : list MediaAsset :=
  flat_map (fun p => List.map assetOfEdge (edges p)) pages.

(** The remote holds a listing of [pages]: it delivers them one per
    listing request, from the [k]-th request on, and signals a next
    page on all but the last. *)
Fixpoint serves (net : nat -> transport files_data) (k : nat)
         (pages : list files_payload) : Prop :=
  match pages with
  | [] => False
  | p :: rest =>
      outcome (request (net k)) = Ok (Some p) /\
      match rest with
      | [] => hasNextPage (pageInfo p) = false
      | _ :: _ => hasNextPage (pageInfo p) = true /\ serves net (S k) rest
      end
  end.

(** The requests that walk through [pages]: page size 50, each cursor
    taken from the page before. *)
Fixpoint cursorWalk (after0 : option string) (pages : list files_payload)
  : list page_request :=
  match pages with
  | [] => []
  | p :: rest =>
      {| first := 50; after := after0 |} ::
      cursorWalk (endCursor (pageInfo p)) rest
  end.

(** [response.fileUpdate?.userErrors]: the messages, [None] when
    absent; the outer [None] stands for a [null] payload. *)
Definition update_data : Type := option (option (list string)).

(** [updateImageAltTag(imageId, altText)] *)
Definition updateImageAltTag (net : transport update_data)
           (imageId altText0 : string) : result unit :=
  match outcome (request net) with
  | Err msg => Err msg
  | Ok None => Err typeErrorMessage
  | Ok (Some ue) =>
      match ue with
      | Some ((_ :: _) as userErrors) =>
          Err ("Failed to update image " ++ imageId ++ ": " ++
               join ", " userErrors)%string
      | _ => Ok tt
      end
  end.

End Shopify.

(* ------------------------------------------------------------------ *)
(** ** gpt.js: the description generator *)

Module Gpt.
Import Js.

(** What one call of [openai.beta.chat.completions.parse] leads to: the
    call or the decoding of its answer throws, the answer carries a
    refusal, or it carries a JSON object with a string [altText]. *)
Inductive completion : Type :=
| ApiThrows (msg : string)
| Refusal
| Content (altText : string).

(** The completion API seen by one generation: attempt to outcome. *)
Definition api : Type := nat -> completion.

(** [altTagSchema], as a test of the [altText] field: [minLength],
    [maxLength] and the case-insensitive [pattern]. *)
Definition altTagSchema (altText : string) : bool :=
  (60 <=? String.length altText) &&
  (String.length altText <=? 125) &&
  includes "coffee" (toLowerCase altText).

Definition maxAttempts : nat := 3.

Definition isAlnum (c : ascii) : bool :=
  between 97 122 c || between 65 90 c || between 48 57 c.

(** A code unit matched by [[^a-zA-Z0-9\s,.&-]]. *)
Definition disallowed (c : ascii) : bool :=
  negb (isAlnum c || isWhiteSpace c ||
        Ascii.eqb c "," || Ascii.eqb c "." ||
        Ascii.eqb c "&" || Ascii.eqb c "-").

(** [text.match(/[^a-zA-Z0-9\s,.&-]/)] is not [null]. *)
Definition hasDisallowed (text : string) : bool := existsb disallowed text.

(** The accessibility test applied to a generated text. *)
Definition accessibilityIssue (altText : string) : bool :=
  includes "image of" (toLowerCase altText) ||
  includes "picture of" (toLowerCase altText) ||
  hasDisallowed altText.

Definition invalidFormatMessage : string := "Invalid alt tag format".

(** How the inner [try] block of one iteration is left. *)
Inductive try_exit : Type :=
| Break
| Return (altText : string)
| Throw (msg : string).

Definition try_body (c : completion) : try_exit :=
  match c with
  | ApiThrows msg => Throw msg
  | Refusal => Break
  | Content raw =>
      let altText := trim raw in
      if accessibilityIssue altText then Throw invalidFormatMessage
      else Return altText
  end.

(** How the [while] loop is left, with the number of API calls made and
    the base delays waited (milliseconds, jitter left out). *)
Record loop_run : Type := {
  returned : option string;
  api_calls : nat;
  backoffs : list nat
}.

(** The [while (attempts < maxAttempts)] loop of [generateAltTag];
    [returned] is [Some] when the loop returns a text and [None] when
    control reaches the fallback.  [None] only when [fuel] runs out. *)
Fixpoint model_loop (fuel : nat) (remote : api)
         (attempts calls : nat) (waits : list nat) : option loop_run :=
  if attempts <? maxAttempts then
    match fuel with
    | O => None
    | S fuel' =>
        match try_body (remote calls) with
        | Return altText =>
            Some {| returned := Some altText; api_calls := S calls;
                    backoffs := waits |}
        | Break =>
            Some {| returned := None; api_calls := S calls;
                    backoffs := waits |}
        | Throw msg =>
            if includes "rate limit" msg && (attempts <? maxAttempts - 1)
            then
              let attempts' := S attempts in
              model_loop fuel' remote attempts' (S calls)
                         (waits ++ [1000 * Nat.pow 2 attempts'])
            else
              Some {| returned := None; api_calls := S calls;
                      backoffs := waits |}
        end
    end
  else Some {| returned := None; api_calls := calls; backoffs := waits |}.

(** The first text built on the fallback path. *)
Definition fallbackText (imageTitle : string) : string :=
  let fallback0 :=
    (replaceAll "_" " " (hd EmptyString (split "-" imageTitle))
       ++ " specialty coffee on Beans.ie")%string in
  let fallback1 :=
    if String.length fallback0 <? 60
    then (fallback0 ++ " from global roasters")%string
    else fallback0 in
  if 125 <? String.length fallback1
  then substring 0 125 fallback1
  else fallback1.

(** The final validation of the fallback. *)
Definition fallbackValid (text : string) : bool :=
  (60 <=? String.length text) &&
  (String.length text <=? 125) &&
  includes "coffee" (toLowerCase text) &&
  negb (hasDisallowed text).

(** The code after the loop. *)
Definition fallback (imageTitle : string) : option string :=
  let text := fallbackText imageTitle in
  if fallbackValid text then Some text else None.

(** The code returns the text alone; [from] and [calls] record, for the
    statements below, the path that produced it and the number of API
    calls made. *)
Inductive source : Type := FromModel | FromFallback | FromNone.

Record generation : Type := {
  value : option string;
  from : source;
  calls : nat
}.

(** [generateAltTag({ imageUrl, imageTitle, businessContext })].  The
    image URL and the business context only enter the request sent to
    the remote API.  The loop needs at most [maxAttempts] iterations
    (lemma [model_loop_total]), so the last branch is dead; nothing in
    the body reaches the outer [catch]. *)
Definition generateAltTag (imageTitle : string) (remote : api)
  : generation :=
  match model_loop maxAttempts remote 0 0 [] with
  | Some {| returned := Some altText; api_calls := n |} =>
      {| value := Some altText; from := FromModel; calls := n |}
  | Some {| returned := None; api_calls := n |} =>
      match fallback imageTitle with
      | Some text => {| value := Some text; from := FromFallback;
                        calls := n |}
      | None => {| value := None; from := FromNone; calls := n |}
      end
  | None => {| value := None; from := FromNone; calls := 0 |}
  end.

(** The title's part before its first hyphen, as the specification
    words it. *)
Fixpoint beforeFirstHyphen (title : string) : string :=
  match title with
  | EmptyString => EmptyString
  | String c t => if Ascii.eqb c "-" then EmptyString
                  else String c (beforeFirstHyphen t)
  end.

Fixpoint underscoresToSpaces (s : string) : string :=
  match s with
  | EmptyString => EmptyString
  | String c t =>
      String (if Ascii.eqb c "_" then " "%char else c)
             (underscoresToSpaces t)
  end.

Fixpoint truncate (n : nat) (s : string) : string :=
  match n, s with
  | S n', String c t => String c (truncate n' t)
  | _, _ => EmptyString
  end.

(** The fallback text as the specification words it. *)
Definition specFallbackText (title : string) : string :=
  let base := (underscoresToSpaces (beforeFirstHyphen title)
                 ++ " specialty coffee on Beans.ie")%string in
  let padded := if String.length base <? 60
                then (base ++ " from global roasters")%string
                else base in
  if 125 <? String.length padded then truncate 125 padded else padded.

(** The three rules the specification asks of an accepted fallback. *)
Definition lengthRule (text : string) : Prop :=
  60 <= String.length text <= 125.

Definition keywordRule (text : string) : Prop :=
  includes "coffee" (toLowerCase text) = true.

Definition characterRule (text : string) : Prop :=
  hasDisallowed text = false.

Definition phraseRule (text : string) : Prop :=
  includes "image of" (toLowerCase text) = false /\
  includes "picture of" (toLowerCase text) = false.

End Gpt.

(* ------------------------------------------------------------------ *)
(** ** index.js: the orchestrator *)

Module Index.
Import Js.
Import Shopify.

(** One entry of [batchUpdates]. *)
Record BatchResult : Type := {
  imageId : string;
  altTag : option string;
  imageUrl : string;
  error : option string
}.

(** One entry of [allUpdates]. *)
Record Batch : Type := {
  batch : nat;
  updates : list BatchResult
}.

(** The object handed to [fs.writeFile] (the timestamp is left out). *)
Record Report : Type := {
  dryRun : bool;
  batches : list Batch
}.

(** What the run does to the outside. *)
Inductive event : Type :=
| EvGenerate (url title : string)      (* gpt.generateAltTag *)
| EvUpdate (id altText : string)       (* shopify.updateImageAltTag *)
| EvPause (ms : N)                     (* the token budget wait *)
| EvWriteFile (r : Report).            (* fs.writeFile of the report *)

(** Everything outside the process.  Remote calls are indexed by the
    position of the candidate they serve, so that every behaviour of the
    remote services is some world.  [mkdirError] is the error thrown
    while the run is prepared (the generator client, the output
    directory), if any.  [settleTime k] is the instant at which the
    promise of candidate [k] settles: within a batch the entries are
    pushed in that order. *)
Record World : Type := {
  scopesNet : transport scopes_data;
  filesNet : nat -> transport files_data;
  updateNet : nat -> transport update_data;
  openai : nat -> Gpt.api;
  mkdirError : option string;
  writeFileError : option string;
  settleTime : nat -> nat
}.

Definition requiredScopes : list string := ["read_files"; "write_files"].

Definition missingScopesMessage : string :=
  ("Missing required API scopes: " ++ join ", " requiredScopes ++
   ". Please re-create the app with these permissions.")%string.

(** [!image.altText || image.altText.trim() === ''] *)
Definition isMissingAlt (image : MediaAsset) : bool :=
  negb (truthy (altText image)) ||
  match altText image with
  | Some s => String.eqb (trim s) EmptyString
  | None => false
  end.

(** [!image.url.toLowerCase().endsWith('.svg')] *)
Definition isSupportedFormat (image : MediaAsset) : bool :=
  negb (endsWith ".svg" (toLowerCase (url image))).

(** The predicate of [images.filter]. *)
Definition isCandidate (image : MediaAsset) : bool :=
  isMissingAlt image && isSupportedFormat image.

Definition imagesMissingAlt (images : list MediaAsset) : list MediaAsset :=
  filter isCandidate images.

Definition batchSize : nat := 5.
Definition tpmLimit : N := 30000.
Definition tokensPerRequest : N := 1000.

(** [tpmLimit * 0.9]: the double nearest to the product is 27000. *)
Definition tokenThreshold : N := (tpmLimit * 9 / 10)%N.

(** [image.filename || 'Coffee product image'] *)
Definition titleOf (image : MediaAsset) : string :=
  orElse (Some (filename image)) "Coffee product image".

Record item_run : Type := {
  entry : BatchResult;
  item_events : list event
}.

(** The body of the callback of [batch.map], for the candidate of
    index [k]. *)
Definition processImage (w : World) (dry : bool) (k : nat)
           (image : MediaAsset) : item_run :=
  let g := Gpt.generateAltTag (titleOf image) (openai w k) in
  let called := [EvGenerate (url image) (titleOf image)] in
  if dry then
    {| entry := {| imageId := id image; altTag := Gpt.value g;
                   imageUrl := url image; error := None |};
       item_events := called |}
  else if truthy (Gpt.value g) then
    let text := orElse (Gpt.value g) EmptyString in
    match updateImageAltTag (updateNet w k) (id image) text with
    | Ok _ =>
        {| entry := {| imageId := id image; altTag := Some text;
                       imageUrl := url image; error := None |};
           item_events := called ++ [EvUpdate (id image) text] |}
    | Err msg =>
        {| entry := {| imageId := id image; altTag := None;
                       imageUrl := url image; error := Some msg |};
           item_events := called ++ [EvUpdate (id image) text] |}
    end
  else
    {| entry := {| imageId := id image; altTag := None;
                   imageUrl := url image; error := None |};
       item_events := called |}.

(** Stable insertion by settling instant. *)
Fixpoint insertByTime (x : nat * item_run) (l : list (nat * item_run))
  : list (nat * item_run) :=
  match l with
  | [] => [x]
  | y :: r => if fst y <=? fst x then y :: insertByTime x r
              else x :: l
  end.

Fixpoint settleOrder (l : list (nat * item_run)) : list (nat * item_run) :=
  match l with
  | [] => []
  | x :: r => insertByTime x (settleOrder r)
  end.

(** [l.slice(i, j)] for [i <= j]. *)
Definition slice {A : Type} (i j : nat) (l : list A) : list A :=
  firstn (j - i) (skipn i l).

(** The promises of one batch, in launch order: the candidates of
    indices [i], [i+1], ... *)
Definition launch (w : World) (dry : bool) (i : nat)
           (items : list MediaAsset) : list item_run :=
  List.map (fun p => processImage w dry (fst p) (snd p))
           (combine (seq i (List.length items)) items).

(** [batchUpdates] once [Promise.all] has settled. *)
Definition batchUpdatesOf (w : World) (i : nat) (runs : list item_run)
  : list BatchResult :=
  List.map (fun p => entry (snd p))
    (settleOrder
       (combine (List.map (settleTime w) (seq i (List.length runs)))
                runs)).

Record loop_state : Type := {
  allUpdates : list Batch;
  estimatedTokensUsed : N;
  trace : list event
}.

(** The [for] loop over the batches; [None] only when [fuel] runs out. *)
Fixpoint batch_loop (fuel : nat) (w : World) (dry : bool)
         (candidates : list MediaAsset) (i : nat) (st : loop_state)
  : option loop_state :=
  if i <? List.length candidates then
    match fuel with
    | O => None
    | S fuel' =>
        let items := slice i (i + batchSize) candidates in
        let batchNumber := i / batchSize + 1 in
        let projected :=
          (N.of_nat (List.length items) * tokensPerRequest)%N in
        let throttle :=
          (tokenThreshold <? estimatedTokensUsed st + projected)%N in
        let tokens0 := if throttle then 0%N else estimatedTokensUsed st in
        let runs := launch w dry i items in
        batch_loop fuel' w dry candidates (i + batchSize)
          {| allUpdates :=
               allUpdates st ++
               [{| batch := batchNumber;
                   updates := batchUpdatesOf w i runs |}];
             estimatedTokensUsed := (tokens0 + projected)%N;
             trace :=
               trace st ++
               (if throttle then [EvPause 60000] else []) ++
               concat (List.map item_events runs) |}
    end
  else Some st.

(** How the [try] block of [main] is left. *)
Record try_run : Type := {
  final : loop_state;
  caught : option string
}.

Definition initial : loop_state :=
  {| allUpdates := []; estimatedTokensUsed := 0; trace := [] |}.

Definition thrown (msg : string) : option try_run :=
  Some {| final := initial; caught := Some msg |}.

Definition try_block (fuel : nat) (w : World) (dry : bool)
  : option try_run :=
  match verifyScopes requiredScopes (scopesNet w) with
  | Err msg => thrown msg
  | Ok false => thrown missingScopesMessage
  | Ok true =>
      match getAllImages fuel (filesNet w) with
      | None => None
      | Some l =>
          match listed l with
          | Err msg => thrown msg
          | Ok images =>
              let candidates := imagesMissingAlt images in
              if List.length candidates =? 0 then
                Some {| final := initial; caught := None |}
              else
                match mkdirError w with
                | Some msg => thrown msg
                | None =>
                    match batch_loop (List.length candidates) w dry
                                     candidates 0 initial with
                    | None => None
                    | Some st => Some {| final := st; caught := None |}
                    end
                end
          end
      end
  end.

(** A finished run: [allUpdates], the calls made, the error logged by
    the [catch] if any, and the report that reached the disk if any. *)
Record Run : Type := {
  reported : list Batch;
  events : list event;
  failure : option string;
  saved : option Report
}.

(** The [finally] block. *)
Definition finalize (w : World) (dry : bool) (t : try_run) : Run :=
  let all := allUpdates (final t) in
  if 0 <? List.length all then
    let r := {| dryRun := dry; batches := all |} in
    {| reported := all;
       events := trace (final t) ++ [EvWriteFile r];
       failure := caught t;
       saved := match writeFileError w with
                | None => Some r
                | Some _ => None
                end |}
  else
    {| reported := all; events := trace (final t);
       failure := caught t; saved := None |}.

(** [main(dryRun)]; [None] only when the listing outlasts [fuel]. *)
Definition main (fuel : nat) (w : World) (dry : bool) : option Run :=
  option_map (finalize w dry) (try_block fuel w dry).

(** The reports handed to [fs.writeFile] during a run. *)
Fixpoint writes (evs : list event) : list Report :=
  match evs with
  | [] => []
  | EvWriteFile r :: rest => r :: writes rest
  | _ :: rest => writes rest
  end.

(** The write mutations issued during a run. *)
Fixpoint mutations (evs : list event) : list (string * string) :=
  match evs with
  | [] => []
  | EvUpdate i a :: rest => (i, a) :: mutations rest
  | _ :: rest => mutations rest
  end.

(** The generator calls issued during a run. *)
Fixpoint generations (evs : list event) : list (string * string) :=
  match evs with
  | [] => []
  | EvGenerate u t :: rest => (u, t) :: generations rest
  | _ :: rest => generations rest
  end.

(** The generator call made for a candidate, and the write mutations
    made for one. *)
Definition generatorCall (image : MediaAsset) : string * string :=
  (url image, titleOf image).

Definition itemMutations (r : item_run) : list (string * string) :=
  mutations (item_events r).

(** The set-up of a run succeeds and the listing delivers [images]. *)
Definition discovers (fuel : nat) (w : World)
           (images : list MediaAsset) : Prop :=
  verifyScopes requiredScopes (scopesNet w) = Ok true /\
  exists log,
    getAllImages fuel (filesNet w) =
    Some {| listed := Ok images; page_requests := log |}.

(** The state of the loop accounts for [candidates]: one entry for
    each, one generator call for each, the write mutations of each and
    nothing written to disk yet. *)
Definition accounts (w : World) (dry : bool)
           (candidates : list MediaAsset) (st : loop_state) : Prop :=
  (candidates <> [] -> allUpdates st <> []) /\
  Permutation (flat_map updates (allUpdates st))
              (List.map entry (launch w dry 0 candidates)) /\
  generations (trace st) = List.map generatorCall candidates /\
  mutations (trace st) =
    flat_map itemMutations (launch w dry 0 candidates) /\
  writes (trace st) = [].

(** The entry a dry run records for the candidate of index [k]. *)
Definition dryEntry (w : World) (k : nat) (image : MediaAsset)
  : BatchResult :=
  {| imageId := id image;
     altTag := Gpt.value (Gpt.generateAltTag (titleOf image) (openai w k));
     imageUrl := url image;
     error := None |}.

(** The specification's words for the selection of candidates. *)
Definition whitespaceOnly (s : string) : Prop :=
  forall n c, String.get n s = Some c -> isWhiteSpace c = true.

Definition altBlank (a : option string) : Prop :=
  a = None \/ a = Some EmptyString \/
  exists s, a = Some s /\ whitespaceOnly s.

Definition endsInSvg (u : string) : Prop :=
  exists p, toLowerCase u = (p ++ ".svg")%string.

End Index.

(* ------------------------------------------------------------------ *)
(** ** Concrete scenarios *)

Module Scenario.
Import Js Shopify Gpt Index.

(** An answer that conforms to [altTagSchema]: 22 characters followed
    by 40 spaces. *)
Definition paddedAnswer : string :=
  "Specialty coffee beans                                        ".

(** A remote that refuses every time. *)
Definition refusing : api := fun _ => Refusal.

(** A remote that answers the same text every time. *)
Definition answering (altText : string) : api := fun _ => Content altText.

(** A transport that delivers [d] with status 200 at every attempt. *)
Definition delivering {D : Type} (d : D) : transport D :=
  fun _ => FetchResponse {| ok := true; status := 200; statusText := "OK";
                            errors := None; data := d |}.

Definition mediaNode (i : string) (a u : option string) : edge :=
  {| edge_node :=
       {| node_id := i; alt := a;
          image := Some {| image_url := u |} |};
     cursor := i |}.

(** A listing of two pages. *)
Definition pageOne : files_payload :=
  {| edges :=
       [mediaNode "gid://shopify/MediaImage/1" None
                  (Some "https://cdn.shopify.com/s/DAK_Gallery_6-min.jpg?v=1");
        mediaNode "gid://shopify/MediaImage/2" (Some "Coffee bag")
                  (Some "https://cdn.shopify.com/s/bag.png")];
     pageInfo := {| hasNextPage := true; endCursor := Some "cursor-1" |} |}.

Definition pageTwo : files_payload :=
  {| edges :=
       [mediaNode "gid://shopify/MediaImage/3" (Some "  ")
                  (Some "https://cdn.shopify.com/s/logo.SVG");
        mediaNode "gid://shopify/MediaImage/4" None None];
     pageInfo := {| hasNextPage := false; endCursor := Some "cursor-2" |} |}.

Definition twoPages (k : nat) : transport files_data :=
  delivering (Some (nth k [pageOne; pageTwo] pageTwo)).

Definition listedImages : list MediaAsset :=
  assetsOf [pageOne; pageTwo].

(** A store with both scopes and the listing above; the generator
    refuses every image and every mutation succeeds. *)
Definition store : World :=
  {| scopesNet := delivering (Some ["read_files"; "write_files"]);
     filesNet := twoPages;
     updateNet := fun _ => delivering (Some (Some []));
     openai := fun _ => refusing;
     mkdirError := None;
     writeFileError := None;
     settleTime := fun k => k |}.

(** The same store behind a token that lacks [write_files]. *)
Definition unscopedStore : World :=
  {| scopesNet := delivering (Some ["read_files"]);
     filesNet := filesNet store;
     updateNet := updateNet store;
     openai := openai store;
     mkdirError := None;
     writeFileError := None;
     settleTime := settleTime store |}.

(** The two candidates of the listing. *)
Definition dakImage : MediaAsset :=
  {| id := "gid://shopify/MediaImage/1";
     altText := None;
     filename := "DAK_Gallery_6-min.jpg";
     url := "https://cdn.shopify.com/s/DAK_Gallery_6-min.jpg?v=1" |}.

Definition bareImage : MediaAsset :=
  {| id := "gid://shopify/MediaImage/4";
     altText := None;
     filename := "4";
     url := EmptyString |}.

Definition dakText : string :=
  "DAK Gallery 6 specialty coffee on Beans.ie from global roasters".

End Scenario.

(* ------------------------------------------------------------------ *)
(** ** Notions used to describe the behaviour of the clients *)

Module Notions.
Import Js Shopify Gpt Index.

(** The linear backoff of [request]: the wait after attempt [k]. *)
Definition linearDelay (k : nat) : nat := 1000 * k.

(** An attempt of [request] that leads to another one when attempts
    remain: a 429 response, or a throw whose message names a timeout or
    429. *)
Definition retried {D : Type} (o : fetch_outcome D) : bool :=
  match Shopify.try_body o with
  | Continue429 => true
  | Shopify.Throw msg => retryable msg
  | Shopify.Return _ => false
  end.

(** A response that reports a cost-exceeded error. *)
Definition costExceeded {D : Type} (r : response D) : bool :=
  match errors r with
  | Some es =>
      List.existsb
        (fun e => match ext_code e with
                  | Some c => String.eqb c "MAX_COST_EXCEEDED"
                  | None => false
                  end) es
  | None => false
  end.

(** A throw of the completion API that names a rate limit. *)
Definition rateLimited (c : completion) : bool :=
  match c with
  | ApiThrows msg => includes "rate limit" msg
  | _ => false
  end.

(** The remote delivers [pages], one per listing request from the
    [k]-th on, and signals a next page after each of them. *)
Fixpoint streams (net : nat -> transport files_data) (k : nat)
         (pages : list files_payload) : Prop :=
  match pages with
  | [] => True
  | p :: rest =>
      outcome (request (net k)) = Ok (Some p) /\
      hasNextPage (pageInfo p) = true /\
      streams net (S k) rest
  end.

(** The cursor in hand after [pages] have been read. *)
Fixpoint cursorAfter (after0 : option string) (pages : list files_payload)
  : option string :=
  match pages with
  | [] => after0
  | p :: rest => cursorAfter (endCursor (pageInfo p)) rest
  end.

(** A listing request that makes [getAllImages] throw [msg]: the request
    itself fails, or its payload has no [files]. *)
Definition failsWith (o : result files_data) (msg : string) : Prop :=
  o = Err msg \/ (o = Ok None /\ msg = invalidResponseMessage).

(** The code unit [c] occurs in [s]. *)
Definition hasChar (c : ascii) (s : string) : bool :=
  Js.existsb (fun x => Ascii.eqb x c) s.

(** A listed record with identifier [i] and image URL [u]. *)
Definition recordWith (i : string) (a u : option string) : edge :=
  {| edge_node :=
       {| node_id := i; alt := a; image := Some {| image_url := u |} |};
     cursor := i |}.

(** The candidates with their indices. *)
Definition indexed (candidates : list MediaAsset)
  : list (nat * MediaAsset) :=
  combine (seq 0 (List.length candidates)) candidates.

(** The write mutation a live run owes to the candidate of index [k]:
    one, with the generated text, when that text is neither null nor
    empty. *)
Definition liveMutation (w : World) (k : nat) (image : MediaAsset)
  : list (string * string) :=
  match Gpt.value (generateAltTag (titleOf image) (openai w k)) with
  | Some (String c t) => [(id image, String c t)]
  | _ => []
  end.

(** The token budget waits of a run. *)
Fixpoint pauses (evs : list event) : list N :=
  match evs with
  | [] => []
  | EvPause ms :: rest => ms :: pauses rest
  | _ :: rest => pauses rest
  end.

(** The run that ends before any call and without report, with [msg]
    logged by the [catch]. *)
Definition abortedRun (msg : string) : Run :=
  {| reported := []; events := []; failure := Some msg; saved := None |}.

(** Batch [j] (counted from 0) of [n] candidates: its number and its
    size. *)
Definition batchShape (n j : nat) (b : Batch) : Prop :=
  batch b = j + 1 /\ List.length (updates b) = Nat.min batchSize (n - batchSize * j).

(** A store whose listing is one page of seven images without alt
    text; the generator refuses and the mutations succeed. *)
Definition sevenPage : files_payload :=
  {| edges :=
       List.map
         (fun n => recordWith ("gid://shopify/MediaImage/" ++ n) None
                     (Some ("https://cdn.shopify.com/s/Ethiopia_Guji_lot_"
                            ++ n ++ ".jpg")))%string
         ["1"; "2"; "3"; "4"; "5"; "6"; "7"];
     pageInfo := {| hasNextPage := false; endCursor := None |} |}.

Definition sevenStore : World :=
  {| scopesNet := Scenario.delivering (Some ["write_files"; "read_files"]);
     filesNet := fun _ => Scenario.delivering (Some sevenPage);
     updateNet := fun _ => Scenario.delivering (Some (Some []));
     openai := fun _ => Scenario.refusing;
     mkdirError := None;
     writeFileError := None;
     settleTime := fun k => 7 - k |}.

(** A store whose listing is one page of 28 images without alt text
    and without URL. *)
Definition crowdedPage : files_payload :=
  {| edges :=
       List.map
         (fun n => recordWith ("gid://shopify/MediaImage/" ++ ofNat n)
                              None None)%string
         (seq 1 28);
     pageInfo := {| hasNextPage := false; endCursor := None |} |}.

Definition crowdedStore : World :=
  {| scopesNet := Scenario.delivering (Some ["read_files"; "write_files"]);
     filesNet := fun _ => Scenario.delivering (Some crowdedPage);
     updateNet := fun _ => Scenario.delivering (Some (Some []));
     openai := fun _ => Scenario.refusing;
     mkdirError := None;
     writeFileError := None;
     settleTime := fun k => k |}.

End Notions.

(* ------------------------------------------------------------------ *)
(** ** Properties of the string operations *)

Section JsFacts.
Import Js.

Lemma eqb_empty_iff (s : string) :
  String.eqb s EmptyString = true <-> s = EmptyString.
Proof. apply String.eqb_eq. Qed.

Lemma forallb_get (p : ascii -> bool) (s : string) :
  forallb p s = true <->
  (forall n c, String.get n s = Some c -> p c = true).
Proof.
  induction s as [|a t IH]; simpl.
  - split; [intros _ n c H; discriminate | reflexivity].
  - rewrite andb_true_iff, IH. split.
    + intros [Ha Ht] [|n] c H; [now inversion H; subst | eauto].
    + intros H. split; [apply (H 0); reflexivity|].
      intros n c Hn. apply (H (S n)). exact Hn.
Qed.

Lemma trimStart_forallb (s : string) :
  forallb isWhiteSpace (trimStart s) = forallb isWhiteSpace s.
Proof.
  induction s as [|c t IH]; simpl; [reflexivity|].
  destruct (isWhiteSpace c) eqn:E; simpl; [exact IH | now rewrite E].
Qed.

Lemma trimEnd_empty_iff (s : string) :
  trimEnd s = EmptyString <-> forallb isWhiteSpace s = true.
Proof.
  induction s as [|c t IH]; simpl; [tauto|].
  destruct (trimEnd t) eqn:Et.
  - destruct (isWhiteSpace c); simpl.
    + split; [intros _; apply IH; reflexivity | reflexivity].
    + split; discriminate.
  - split; [discriminate|].
    rewrite andb_true_iff. intros [_ H]. apply IH in H. discriminate.
Qed.

Lemma trim_empty_iff (s : string) :
  trim s = EmptyString <-> forallb isWhiteSpace s = true.
Proof.
  unfold trim. now rewrite trimEnd_empty_iff, trimStart_forallb.
Qed.

Lemma substring_append_r (p s : string) :
  substring (String.length p) (String.length s) (p ++ s) = s.
Proof.
  induction p as [|c p IH]; simpl; [|exact IH].
  induction s as [|c s IH]; simpl; [reflexivity | now rewrite IH].
Qed.

Lemma length_append (a b : string) :
  String.length (a ++ b) = String.length a + String.length b.
Proof. induction a as [|c a IH]; simpl; congruence. Qed.

Lemma substring_split (k : nat) (s : string) :
  k <= String.length s ->
  s = (substring 0 k s ++ substring k (String.length s - k) s)%string.
Proof.
  revert k. induction s as [|c t IH]; intros [|k] H; simpl in *;
    try reflexivity; try lia.
  - f_equal. clear. induction t as [|c t IH]; simpl; congruence.
  - f_equal. apply IH. lia.
Qed.

Lemma endsWith_iff (suffix s : string) :
  endsWith suffix s = true <-> exists p, s = (p ++ suffix)%string.
Proof.
  unfold endsWith. split.
  - destruct (Nat.leb_spec (String.length suffix) (String.length s))
      as [Hle|Hlt]; [|discriminate].
    intros H. apply String.eqb_eq in H.
    remember (String.length s - String.length suffix) as k eqn:Hk.
    assert (Hs := @substring_split k s ltac:(lia)).
    assert (Hm : String.length s - k = String.length suffix) by lia.
    rewrite Hm, H in Hs. now exists (substring 0 k s).
  - intros [p ->]. rewrite length_append.
    replace (String.length suffix <=? String.length p + String.length suffix)
      with true by (symmetry; apply Nat.leb_le; lia).
    replace (String.length p + String.length suffix - String.length suffix)
      with (String.length p) by lia.
    rewrite substring_append_r. apply String.eqb_refl.
Qed.

Lemma split_nonempty (sep : ascii) (s : string) : split sep s <> [].
Proof.
  induction s as [|c t IH]; simpl; [discriminate|].
  destruct (Ascii.eqb c sep); [discriminate|].
  destruct (split sep t); discriminate.
Qed.

Lemma split_hd (s : string) :
  hd EmptyString (split "-" s) = Gpt.beforeFirstHyphen s.
Proof.
  induction s as [|c t IH]; simpl; [reflexivity|].
  destruct (Ascii.eqb c "-"); [reflexivity|].
  destruct (split "-" t) eqn:E; simpl in *.
  - now destruct (split_nonempty "-" t).
  - now rewrite IH.
Qed.

Lemma replaceAll_underscores (s : string) :
  replaceAll "_" " " s = Gpt.underscoresToSpaces s.
Proof.
  unfold replaceAll. induction s as [|c t IH]; simpl; congruence.
Qed.

Lemma substring_truncate (n : nat) (s : string) :
  substring 0 n s = Gpt.truncate n s.
Proof.
  revert s. induction n as [|n IH]; intros [|c t]; simpl;
    try reflexivity.
  now rewrite IH.
Qed.

End JsFacts.

(* ------------------------------------------------------------------ *)
(** ** Selection of the candidates *)

Section Selection.
Import Js Shopify Index.

Lemma isMissingAlt_iff (image : MediaAsset) :
  isMissingAlt image = true <-> altBlank (altText image).
Proof.
  unfold isMissingAlt, altBlank.
  destruct (altText image) as [[|c t]|]; simpl.
  - split; [intros _; right; left; reflexivity | reflexivity].
  - rewrite eqb_empty_iff, trim_empty_iff, forallb_get. split.
    + intros H. right; right. now exists (String c t).
    + intros [H|[H|[s [H Hs]]]]; try discriminate.
      now inversion H; subst.
  - split; [intros _; now left | reflexivity].
Qed.

Lemma isSupportedFormat_iff (image : MediaAsset) :
  isSupportedFormat image = true <-> ~ endsInSvg (url image).
Proof.
  unfold isSupportedFormat, endsInSvg.
  rewrite negb_true_iff, <- endsWith_iff.
  destruct (endsWith ".svg" (toLowerCase (url image))); split;
    congruence.
Qed.

Lemma isCandidate_iff (image : MediaAsset) :
  isCandidate image = true <->
  altBlank (altText image) /\ ~ endsInSvg (url image).
Proof.
  unfold isCandidate.
  now rewrite andb_true_iff, isMissingAlt_iff, isSupportedFormat_iff.
Qed.

(** Claim C4.  A listed media asset is among the candidates exactly when
    its alt text is null, empty or made of white space only, and its
    URL, put in lower case, does not end in ".svg". *)
Theorem candidate_iff_blank_alt_and_not_svg
        (images : list MediaAsset) (image : MediaAsset) :
  In image (imagesMissingAlt images) <->
  In image images /\
  altBlank (altText image) /\ ~ endsInSvg (url image).
Proof.
  unfold imagesMissingAlt. now rewrite filter_In, isCandidate_iff.
Qed.

End Selection.

(* ------------------------------------------------------------------ *)
(** ** The retry loops *)

Section Retry.
Import Js.

Lemma request_loop_bound (D : Type) (net : Shopify.transport D)
      (fuel attempts sent : nat) (waits : list nat)
      (r : Shopify.request_run D) :
  Shopify.request_loop fuel net attempts sent waits = Some r ->
  sent + Nat.b2n (attempts <? Shopify.maxAttempts) <= Shopify.fetches r
  <= sent + (Shopify.maxAttempts - attempts).
Proof.
  unfold Shopify.maxAttempts.
  revert attempts sent waits.
  induction fuel as [|fuel IH]; intros attempts sent waits;
    cbn [Shopify.request_loop]; unfold Shopify.maxAttempts;
    destruct (Nat.ltb_spec attempts 3) as [Hlt|Hge];
    try discriminate;
    try (intros [= <-]; cbn [Shopify.fetches Nat.b2n]; lia).
  destruct (Shopify.try_body (net sent)) as [|d|msg].
  - intros H. apply IH in H. cbn [Nat.b2n]. lia.
  - intros [= <-]; cbn [Shopify.fetches Nat.b2n]; lia.
  - destruct (Shopify.retryable msg && (S attempts <? 3)).
    + intros H. apply IH in H. cbn [Nat.b2n]. lia.
    + intros [= <-]; cbn [Shopify.fetches Nat.b2n]; lia.
Qed.

Lemma request_loop_total (D : Type) (net : Shopify.transport D)
      (fuel attempts sent : nat) (waits : list nat) :
  Shopify.maxAttempts <= attempts + fuel ->
  exists r, Shopify.request_loop fuel net attempts sent waits = Some r.
Proof.
  unfold Shopify.maxAttempts.
  revert attempts sent waits.
  induction fuel as [|fuel IH]; intros attempts sent waits Hf;
    cbn [Shopify.request_loop]; unfold Shopify.maxAttempts;
    destruct (Nat.ltb_spec attempts 3) as [Hlt|Hge];
    try lia; eauto.
  destruct (Shopify.try_body (net sent)) as [|d|msg]; eauto.
  - apply IH. lia.
  - destruct (Shopify.retryable msg && (S attempts <? 3)); eauto.
    apply IH. lia.
Qed.

Lemma request_loop_starved (D : Type) (net : Shopify.transport D)
      (fuel attempts sent : nat) (waits : list nat) :
  Shopify.request_loop fuel net attempts sent waits = None ->
  attempts + fuel < Shopify.maxAttempts.
Proof.
  intros H.
  destruct (Nat.lt_ge_cases (attempts + fuel) Shopify.maxAttempts)
    as [Hlt|Hge]; [exact Hlt|].
  destruct (request_loop_total net fuel attempts sent waits Hge)
    as [r Hr].
  congruence.
Qed.

Lemma request_is_loop (D : Type) (net : Shopify.transport D) :
  Shopify.request_loop Shopify.maxAttempts net 0 0 [] =
  Some (Shopify.request net).
Proof.
  unfold Shopify.request.
  destruct (@request_loop_total D net Shopify.maxAttempts 0 0 [])
    as [r Hr]; [lia|].
  now rewrite Hr.
Qed.

Lemma model_loop_bound (remote : Gpt.api) (fuel attempts calls : nat)
      (waits : list nat) (r : Gpt.loop_run) :
  Gpt.model_loop fuel remote attempts calls waits = Some r ->
  calls + Nat.b2n (attempts <? Gpt.maxAttempts) <= Gpt.api_calls r
  <= calls + (Gpt.maxAttempts - attempts).
Proof.
  unfold Gpt.maxAttempts.
  revert attempts calls waits.
  induction fuel as [|fuel IH]; intros attempts calls waits;
    cbn [Gpt.model_loop]; unfold Gpt.maxAttempts;
    destruct (Nat.ltb_spec attempts 3) as [Hlt|Hge];
    try discriminate;
    try (intros [= <-]; cbn [Gpt.api_calls Nat.b2n]; lia).
  destruct (Gpt.try_body (remote calls)) as [|t|msg];
    try (intros [= <-]; cbn [Gpt.api_calls Nat.b2n]; lia).
  destruct (includes "rate limit" msg && (attempts <? 3 - 1)).
  - intros H. apply IH in H. cbn [Nat.b2n]. lia.
  - intros [= <-]; cbn [Gpt.api_calls Nat.b2n]; lia.
Qed.

Lemma model_loop_total (remote : Gpt.api) (fuel attempts calls : nat)
      (waits : list nat) :
  Gpt.maxAttempts <= attempts + fuel ->
  exists r, Gpt.model_loop fuel remote attempts calls waits = Some r.
Proof.
  unfold Gpt.maxAttempts.
  revert attempts calls waits.
  induction fuel as [|fuel IH]; intros attempts calls waits Hf;
    cbn [Gpt.model_loop]; unfold Gpt.maxAttempts;
    destruct (Nat.ltb_spec attempts 3) as [Hlt|Hge];
    try lia; eauto.
  destruct (Gpt.try_body (remote calls)) as [|t|msg]; eauto.
  destruct (includes "rate limit" msg && (attempts <? 3 - 1)); eauto.
  apply IH. lia.
Qed.

Lemma model_loop_starved (remote : Gpt.api) (fuel attempts calls : nat)
      (waits : list nat) :
  Gpt.model_loop fuel remote attempts calls waits = None ->
  attempts + fuel < Gpt.maxAttempts.
Proof.
  intros H.
  destruct (Nat.lt_ge_cases (attempts + fuel) Gpt.maxAttempts)
    as [Hlt|Hge]; [exact Hlt|].
  destruct (model_loop_total remote fuel attempts calls waits Hge)
    as [r Hr].
  congruence.
Qed.

(** The generation, read off the run of the loop. *)
Lemma generateAltTag_unfold (title : string) (remote : Gpt.api) :
  exists r,
    Gpt.model_loop Gpt.maxAttempts remote 0 0 [] = Some r /\
    Gpt.calls (Gpt.generateAltTag title remote) = Gpt.api_calls r /\
    match Gpt.returned r with
    | Some text =>
        Gpt.value (Gpt.generateAltTag title remote) = Some text /\
        Gpt.from (Gpt.generateAltTag title remote) = Gpt.FromModel
    | None =>
        Gpt.value (Gpt.generateAltTag title remote) = Gpt.fallback title /\
        Gpt.from (Gpt.generateAltTag title remote) =
        match Gpt.fallback title with
        | Some _ => Gpt.FromFallback
        | None => Gpt.FromNone
        end
    end.
Proof.
  destruct (@model_loop_total remote Gpt.maxAttempts 0 0 []) as [r Hr];
    [lia|].
  exists r. split; [exact Hr|].
  unfold Gpt.generateAltTag. rewrite Hr.
  destruct r as [[text|] n w]; simpl; [tauto|].
  destruct (Gpt.fallback title); simpl; tauto.
Qed.

(** Claim C6.  One logical request of the media client makes at least
    one and at most three HTTP attempts and then returns data or raises
    an error; one generation makes at least one and at most three calls
    of the completion API and then returns a text, falls back or returns
    null.  The loops stop by themselves: they exhaust their fuel only
    when given less than three units. *)
Theorem at_most_three_attempts :
  (forall (D : Type) (net : Shopify.transport D) (fuel : nat),
      match Shopify.request_loop fuel net 0 0 [] with
      | Some r => 1 <= Shopify.fetches r <= 3
      | None => fuel < 3
      end) /\
  (forall (D : Type) (net : Shopify.transport D),
      Shopify.request_loop Shopify.maxAttempts net 0 0 [] =
      Some (Shopify.request net) /\
      1 <= Shopify.fetches (Shopify.request net) <= 3) /\
  (forall (remote : Gpt.api) (fuel : nat),
      match Gpt.model_loop fuel remote 0 0 [] with
      | Some r => 1 <= Gpt.api_calls r <= 3
      | None => fuel < 3
      end) /\
  (forall (title : string) (remote : Gpt.api),
      1 <= Gpt.calls (Gpt.generateAltTag title remote) <= 3).
Proof.
  split; [|split; [|split]].
  - intros D net fuel.
    destruct (Shopify.request_loop fuel net 0 0 []) as [r|] eqn:E.
    + apply request_loop_bound in E. simpl in E. lia.
    + apply request_loop_starved in E. exact E.
  - intros D net. split; [apply request_is_loop|].
    assert (E := request_is_loop net).
    apply request_loop_bound in E. simpl in E. lia.
  - intros remote fuel.
    destruct (Gpt.model_loop fuel remote 0 0 []) as [r|] eqn:E.
    + apply model_loop_bound in E. simpl in E. lia.
    + apply model_loop_starved in E. exact E.
  - intros title remote.
    destruct (generateAltTag_unfold title remote) as [r [E [-> _]]].
    apply model_loop_bound in E. simpl in E. lia.
Qed.

End Retry.

(* ------------------------------------------------------------------ *)
(** ** Trimming and searching *)

Section TrimFacts.
Import Js.

Lemma lowerChar_whitespace (c : ascii) :
  isWhiteSpace (lowerChar c) = isWhiteSpace c.
Proof.
  destruct c as [[] [] [] [] [] [] [] []]; vm_compute; reflexivity.
Qed.

Lemma toLowerCase_trimStart (s : string) :
  toLowerCase (trimStart s) = trimStart (toLowerCase s).
Proof.
  unfold toLowerCase.
  induction s as [|c t IH]; simpl; [reflexivity|].
  rewrite lowerChar_whitespace.
  destruct (isWhiteSpace c); [exact IH | reflexivity].
Qed.

Lemma toLowerCase_trimEnd (s : string) :
  toLowerCase (trimEnd s) = trimEnd (toLowerCase s).
Proof.
  unfold toLowerCase.
  induction s as [|c t IH]; simpl; [reflexivity|].
  rewrite <- IH, lowerChar_whitespace.
  destruct (trimEnd t); simpl; [|reflexivity].
  destruct (isWhiteSpace c); reflexivity.
Qed.

Lemma toLowerCase_trim (s : string) :
  toLowerCase (trim s) = trim (toLowerCase s).
Proof.
  unfold trim. now rewrite toLowerCase_trimEnd, toLowerCase_trimStart.
Qed.

Lemma length_trimStart (s : string) :
  String.length (trimStart s) <= String.length s.
Proof.
  induction s as [|c t IH]; simpl; [lia|].
  destruct (isWhiteSpace c); simpl; lia.
Qed.

Lemma length_trimEnd (s : string) :
  String.length (trimEnd s) <= String.length s.
Proof.
  induction s as [|c t IH]; simpl; [lia|].
  destruct (trimEnd t); simpl in *; [|lia].
  destruct (isWhiteSpace c); simpl; lia.
Qed.

Lemma length_trim (s : string) :
  String.length (trim s) <= String.length s.
Proof.
  unfold trim.
  etransitivity; [apply length_trimEnd | apply length_trimStart].
Qed.

Lemma prefix_cons (a c : ascii) (n t : string) :
  String.prefix (String a n) (String c t) =
  Ascii.eqb a c && String.prefix n t.
Proof.
  simpl. destruct (ascii_dec a c) as [->|Hne].
  - now rewrite Ascii.eqb_refl.
  - apply Ascii.eqb_neq in Hne. now rewrite Hne.
Qed.

Lemma includes_cons (n : string) (c : ascii) (t : string) :
  includes n (String c t) = String.prefix n (String c t) || includes n t.
Proof. reflexivity. Qed.

Lemma prefix_includes (n s : string) :
  String.prefix n s = true -> includes n s = true.
Proof.
  intros H. destruct s; cbn [includes]; rewrite H; reflexivity.
Qed.

Lemma includes_trimStart (a : ascii) (n s : string) :
  isWhiteSpace a = false ->
  includes (String a n) s = true ->
  includes (String a n) (trimStart s) = true.
Proof.
  intros Ha. induction s as [|c t IH]; [trivial|].
  cbn [trimStart]. destruct (isWhiteSpace c) eqn:Ec; [|trivial].
  rewrite includes_cons, prefix_cons.
  destruct (Ascii.eqb_spec a c) as [->|_]; [congruence|].
  simpl. exact IH.
Qed.

Lemma trimEnd_cons_nonwhite (c : ascii) (t : string) :
  isWhiteSpace c = false ->
  exists r, trimEnd (String c t) = String c r.
Proof.
  intros Hc. cbn [trimEnd]. destruct (trimEnd t); rewrite ?Hc; eauto.
Qed.

Lemma trimEnd_cons_nonempty (c : ascii) (t : string) :
  trimEnd t <> EmptyString ->
  trimEnd (String c t) = String c (trimEnd t).
Proof.
  intros Ht. cbn [trimEnd]. destruct (trimEnd t); congruence.
Qed.

Lemma prefix_trimEnd (n s : string) :
  n <> EmptyString ->
  forallb (fun c => negb (isWhiteSpace c)) n = true ->
  String.prefix n s = true ->
  String.prefix n (trimEnd s) = true.
Proof.
  revert s. induction n as [|a n IH]; intros s Hne Hn Hp;
    [congruence|].
  destruct s as [|c t]; [discriminate|].
  rewrite prefix_cons in Hp. apply andb_true_iff in Hp as [Hac Hp].
  apply Ascii.eqb_eq in Hac. subst c.
  cbn [forallb] in Hn. apply andb_true_iff in Hn as [Ha Hn].
  apply negb_true_iff in Ha.
  destruct n as [|b n].
  - destruct (trimEnd_cons_nonwhite a t Ha) as [r ->].
    rewrite prefix_cons, Ascii.eqb_refl. now destruct r.
  - assert (Hq : String.prefix (String b n) (trimEnd t) = true)
      by (apply IH; [discriminate | exact Hn | exact Hp]).
    rewrite trimEnd_cons_nonempty.
    + now rewrite prefix_cons, Ascii.eqb_refl.
    + intros E. rewrite E in Hq. discriminate.
Qed.

Lemma includes_trimEnd (n s : string) :
  n <> EmptyString ->
  forallb (fun c => negb (isWhiteSpace c)) n = true ->
  includes n s = true ->
  includes n (trimEnd s) = true.
Proof.
  intros Hne Hn. induction s as [|c t IH]; [trivial|].
  rewrite includes_cons. intros H.
  apply orb_true_iff in H as [H|H].
  - apply prefix_trimEnd in H; [|exact Hne|exact Hn].
    now apply prefix_includes.
  - apply IH in H. rewrite trimEnd_cons_nonempty.
    + rewrite includes_cons, H. apply orb_true_r.
    + intros E. rewrite E in H. destruct n; [congruence|discriminate].
Qed.

Lemma includes_trim (a : ascii) (n s : string) :
  forallb (fun c => negb (isWhiteSpace c)) (String a n) = true ->
  includes (String a n) s = true ->
  includes (String a n) (trim s) = true.
Proof.
  intros Hn H. unfold trim.
  apply includes_trimEnd; [discriminate | exact Hn |].
  apply includes_trimStart; [|exact H].
  cbn [forallb] in Hn. apply andb_true_iff in Hn as [Ha _].
  now apply negb_true_iff in Ha.
Qed.

End TrimFacts.

(* ------------------------------------------------------------------ *)
(** ** The generated and the fallback text *)

Section Generation.
Import Js Gpt.

Lemma invalidFormat_not_rate_limit :
  includes "rate limit" invalidFormatMessage = false.
Proof. reflexivity. Qed.

(** A text returned by the loop is the trimmed answer of one of the
    calls, and it passed the accessibility test. *)
Lemma model_loop_returned (remote : api) (fuel attempts n : nat)
      (waits : list nat) (r : loop_run) (text : string) :
  model_loop fuel remote attempts n waits = Some r ->
  returned r = Some text ->
  exists k raw,
    n <= k < n + (maxAttempts - attempts) /\
    remote k = Content raw /\ text = trim raw /\
    accessibilityIssue text = false.
Proof.
  unfold maxAttempts.
  revert attempts n waits.
  induction fuel as [|fuel IH]; intros attempts n waits;
    cbn [model_loop]; unfold maxAttempts;
    destruct (Nat.ltb_spec attempts 3) as [Hlt|Hge];
    try discriminate;
    try (intros [= <-]; discriminate).
  unfold try_body.
  destruct (remote n) as [msg| |raw] eqn:E.
  - destruct (includes "rate limit" msg && (attempts <? 3 - 1)).
    + intros H Hr. destruct (IH _ _ _ H Hr) as [k [raw [Hk Hrest]]].
      exists k, raw. split; [lia | exact Hrest].
    + intros [= <-]; discriminate.
  - intros [= <-]; discriminate.
  - destruct (accessibilityIssue (trim raw)) eqn:Ea.
    + rewrite invalidFormat_not_rate_limit. cbn [andb].
      intros [= <-]; discriminate.
    + intros [= <-] [= <-]. exists n, raw.
      repeat split; try lia; assumption.
Qed.

Lemma accessibilityIssue_false (text : string) :
  accessibilityIssue text = false ->
  phraseRule text /\ characterRule text.
Proof.
  unfold accessibilityIssue, phraseRule, characterRule.
  rewrite !orb_false_iff. tauto.
Qed.

Lemma fallbackValid_iff (text : string) :
  fallbackValid text = true <->
  lengthRule text /\ keywordRule text /\ characterRule text.
Proof.
  unfold fallbackValid, lengthRule, keywordRule, characterRule.
  rewrite !andb_true_iff, negb_true_iff, !Nat.leb_le. tauto.
Qed.

Lemma fallback_some (title text : string) :
  fallback title = Some text ->
  text = fallbackText title /\ fallbackValid text = true.
Proof.
  unfold fallback.
  destruct (fallbackValid (fallbackText title)) eqn:E;
    [|discriminate].
  intros [= <-]. now split.
Qed.

Lemma schema_survives_trim (raw : string) :
  altTagSchema raw = true ->
  String.length (trim raw) <= 125 /\ keywordRule (trim raw).
Proof.
  unfold altTagSchema, keywordRule.
  rewrite !andb_true_iff, !Nat.leb_le. intros [[_ Hmax] Hkey].
  split.
  - pose proof (length_trim raw). lia.
  - rewrite toLowerCase_trim. apply includes_trim; [reflexivity|].
    exact Hkey.
Qed.

Lemma fallbackText_spec (title : string) :
  fallbackText title = specFallbackText title.
Proof.
  unfold fallbackText, specFallbackText.
  now rewrite split_hd, replaceAll_underscores, substring_truncate.
Qed.

(** Claim C1, as the code has it.  A non-null text returned by
    [generateAltTag] holds no character outside the allowed class.  From
    the model path it is the trimmed answer of one of at most three
    calls and holds neither "image of" nor "picture of"; when that
    answer conforms to the requested schema the text is at most 125
    long and holds "coffee".  From the fallback path it is the fallback
    text, between 60 and 125 long, and holds "coffee". *)
Theorem returned_text_rules (title : string) (remote : api)
        (text : string) :
  value (generateAltTag title remote) = Some text ->
  characterRule text /\
  match from (generateAltTag title remote) with
  | FromModel =>
      phraseRule text /\
      exists k raw,
        k < 3 /\ remote k = Content raw /\ text = trim raw /\
        (altTagSchema raw = true ->
         String.length text <= 125 /\ keywordRule text)
  | FromFallback =>
      text = fallbackText title /\ lengthRule text /\ keywordRule text
  | FromNone => False
  end.
Proof.
  destruct (generateAltTag_unfold title remote) as [r [Hr [_ H]]].
  destruct (returned r) as [t|] eqn:Et.
  - destruct H as [-> ->]. intros [= ->].
    destruct (model_loop_returned _ _ _ _ _ Hr Et)
      as [k [raw [Hk [Hrem [-> Hacc]]]]].
    apply accessibilityIssue_false in Hacc as [Hp Hc].
    split; [exact Hc|]. split; [exact Hp|].
    exists k, raw. unfold maxAttempts in Hk.
    repeat split; try lia; try assumption;
      now apply schema_survives_trim.
  - destruct H as [-> ->]. intros Hf. rewrite Hf.
    apply fallback_some in Hf as [-> Hv].
    apply fallbackValid_iff in Hv. tauto.
Qed.

Lemma returned_text_rules_witness :
  characterRule
    "DAK Gallery 6 specialty coffee on Beans.ie from global roasters" /\
  "DAK Gallery 6 specialty coffee on Beans.ie from global roasters" =
    fallbackText "DAK_Gallery_6-min.jpg" /\
  lengthRule
    "DAK Gallery 6 specialty coffee on Beans.ie from global roasters" /\
  keywordRule
    "DAK Gallery 6 specialty coffee on Beans.ie from global roasters".
Proof.
  exact (@returned_text_rules "DAK_Gallery_6-min.jpg" Scenario.refusing
           "DAK Gallery 6 specialty coffee on Beans.ie from global roasters"
           eq_refl).
Defined.

(** Claim C1 fails as stated.  On the fallback path the title
    "image_of_beans.jpg" yields an accepted text that holds "image of";
    on the model path a schema-conforming answer padded with spaces is
    returned trimmed to 22 characters, and an answer without the keyword
    is returned as it is. *)
Lemma returned_text_breaks_rules :
  (generateAltTag "image_of_beans.jpg" Scenario.refusing =
     {| value :=
          Some "image of beans.jpg specialty coffee on Beans.ie from global roasters";
        from := FromFallback; calls := 1 |} /\
   ~ phraseRule
       "image of beans.jpg specialty coffee on Beans.ie from global roasters")
  /\
  (altTagSchema Scenario.paddedAnswer = true /\
   generateAltTag "beans.jpg" (Scenario.answering Scenario.paddedAnswer) =
     {| value := Some "Specialty coffee beans";
        from := FromModel; calls := 1 |} /\
   ~ lengthRule "Specialty coffee beans")
  /\
  (generateAltTag "beans.jpg" (Scenario.answering "Tea leaves in a cup") =
     {| value := Some "Tea leaves in a cup";
        from := FromModel; calls := 1 |} /\
   ~ keywordRule "Tea leaves in a cup").
Proof.
  repeat split; try reflexivity.
  - intros [H _]. vm_compute in H. discriminate.
  - intros [H _]. vm_compute in H. lia.
  - intros H. vm_compute in H. discriminate.
Qed.

(** Claim C8.  When control reaches the fallback, the text is the
    title's part before its first hyphen, with every underscore turned
    into a space, followed by " specialty coffee on Beans.ie", then by
    " from global roasters" if that is under 60 characters, and cut to
    125 characters if longer; it is returned exactly when it satisfies
    the length, keyword and character rules, and [null] is returned
    otherwise. *)
Theorem fallback_as_specified (title : string) (remote : api) :
  from (generateAltTag title remote) <> FromModel ->
  fallbackText title = specFallbackText title /\
  value (generateAltTag title remote) =
    (if fallbackValid (specFallbackText title)
     then Some (specFallbackText title) else None) /\
  (fallbackValid (specFallbackText title) = true <->
   lengthRule (specFallbackText title) /\
   keywordRule (specFallbackText title) /\
   characterRule (specFallbackText title)).
Proof.
  intros Hfrom.
  split; [apply fallbackText_spec|].
  split; [|apply fallbackValid_iff].
  destruct (generateAltTag_unfold title remote) as [r [_ [_ H]]].
  destruct (returned r); [destruct H as [_ H]; congruence|].
  destruct H as [-> _]. unfold fallback.
  now rewrite fallbackText_spec.
Qed.

Lemma fallback_as_specified_witness :
  fallbackText "DAK_Gallery_6-min.jpg" =
    specFallbackText "DAK_Gallery_6-min.jpg" /\
  value (generateAltTag "DAK_Gallery_6-min.jpg" Scenario.refusing) =
    (if fallbackValid (specFallbackText "DAK_Gallery_6-min.jpg")
     then Some (specFallbackText "DAK_Gallery_6-min.jpg") else None) /\
  (fallbackValid (specFallbackText "DAK_Gallery_6-min.jpg") = true <->
   lengthRule (specFallbackText "DAK_Gallery_6-min.jpg") /\
   keywordRule (specFallbackText "DAK_Gallery_6-min.jpg") /\
   characterRule (specFallbackText "DAK_Gallery_6-min.jpg")).
Proof.
  apply (@fallback_as_specified "DAK_Gallery_6-min.jpg" Scenario.refusing).
  vm_compute. discriminate.
Defined.

End Generation.

(* ------------------------------------------------------------------ *)
(** ** The paginated listing *)

Section Listing.
Import Js Shopify.

Lemma getAllImages_loop_done (fuel : nat)
      (net : nat -> transport files_data) (k : nat)
      (images : list MediaAsset) (after0 : option string)
      (log : list page_request) :
  getAllImages_loop fuel net k images after0 false log =
  Some {| listed := Ok images; page_requests := log |}.
Proof. destruct fuel; reflexivity. Qed.

Lemma length_cursorWalk (after0 : option string)
      (pages : list files_payload) :
  List.length (cursorWalk after0 pages) = List.length pages.
Proof.
  revert after0. induction pages as [|p rest IH]; intros after0; simpl;
    [reflexivity | now rewrite IH].
Qed.

Lemma getAllImages_loop_serves (net : nat -> transport files_data)
      (pages : list files_payload) :
  forall (fuel k : nat) (images : list MediaAsset)
         (after0 : option string) (log : list page_request),
    serves net k pages ->
    List.length pages <= fuel ->
    getAllImages_loop fuel net k images after0 true log =
    Some {| listed := Ok (images ++ assetsOf pages);
            page_requests := log ++ cursorWalk after0 pages |}.
Proof.
  induction pages as [|p rest IH];
    intros fuel k images after0 log Hs Hf; [destruct Hs|].
  destruct fuel as [|fuel]; [simpl in Hf; lia|].
  destruct Hs as [Hp Hrest].
  cbn [getAllImages_loop]. rewrite Hp.
  unfold assetsOf. cbn [flat_map cursorWalk].
  destruct rest as [|q rest].
  - rewrite Hrest, getAllImages_loop_done.
    cbn [flat_map cursorWalk]. now rewrite app_nil_r.
  - destruct Hrest as [Hmore Hrest]. rewrite Hmore.
    rewrite (IH fuel (S k)); [|exact Hrest|simpl in *; lia].
    unfold assetsOf. now rewrite <- !app_assoc.
Qed.

(** Claim C7.  When the remote holds a listing of N pages and signals a
    next page on all but the last, [getAllImages] terminates (any fuel
    of at least N is enough) after exactly N listing requests, each of
    page size 50, the first without cursor and each next one with the
    end cursor of the page before, and returns the assets of all the
    edges in page order. *)
Theorem listing_walks_all_pages (net : nat -> transport files_data)
        (pages : list files_payload) (fuel : nat) :
  serves net 0 pages ->
  List.length pages <= fuel ->
  getAllImages fuel net =
    Some {| listed := Ok (assetsOf pages);
            page_requests := cursorWalk None pages |} /\
  List.length (cursorWalk None pages) = List.length pages.
Proof.
  intros Hs Hf. split; [|apply length_cursorWalk].
  unfold getAllImages.
  now rewrite (@getAllImages_loop_serves net pages fuel 0 [] None [] Hs Hf).
Qed.

Lemma listing_walks_all_pages_witness :
  getAllImages 2 Scenario.twoPages =
    Some {| listed :=
              Ok (assetsOf [Scenario.pageOne; Scenario.pageTwo]);
            page_requests :=
              cursorWalk None [Scenario.pageOne; Scenario.pageTwo] |} /\
  List.length (cursorWalk None [Scenario.pageOne; Scenario.pageTwo]) =
  List.length [Scenario.pageOne; Scenario.pageTwo].
Proof.
  apply (@listing_walks_all_pages Scenario.twoPages
           [Scenario.pageOne; Scenario.pageTwo] 2).
  - vm_compute. repeat split; reflexivity.
  - simpl. lia.
Defined.

End Listing.

(* ------------------------------------------------------------------ *)
(** ** The batch loop *)

Section Batches.
Import Js Shopify Index.

Lemma writes_app (a b : list event) :
  writes (a ++ b) = writes a ++ writes b.
Proof.
  induction a as [|e a IH]; [reflexivity|].
  destruct e; simpl; now rewrite ?IH.
Qed.

Lemma mutations_app (a b : list event) :
  mutations (a ++ b) = mutations a ++ mutations b.
Proof.
  induction a as [|e a IH]; [reflexivity|].
  destruct e; simpl; now rewrite ?IH.
Qed.

Lemma generations_app (a b : list event) :
  generations (a ++ b) = generations a ++ generations b.
Proof.
  induction a as [|e a IH]; [reflexivity|].
  destruct e; simpl; now rewrite ?IH.
Qed.

Lemma processImage_generations (w : World) (dry : bool) (k : nat)
      (image : MediaAsset) :
  generations (item_events (processImage w dry k image)) =
  [generatorCall image].
Proof.
  unfold processImage, generatorCall.
  destruct dry; [reflexivity|].
  destruct (truthy _); [|reflexivity].
  destruct (updateImageAltTag _ _ _); reflexivity.
Qed.

Lemma processImage_writes (w : World) (dry : bool) (k : nat)
      (image : MediaAsset) :
  writes (item_events (processImage w dry k image)) = [].
Proof.
  unfold processImage.
  destruct dry; [reflexivity|].
  destruct (truthy _); [|reflexivity].
  destruct (updateImageAltTag _ _ _); reflexivity.
Qed.

Lemma processImage_identity (w : World) (dry : bool) (k : nat)
      (image : MediaAsset) :
  imageId (entry (processImage w dry k image)) = id image /\
  imageUrl (entry (processImage w dry k image)) = url image.
Proof.
  unfold processImage.
  destruct dry; [now split|].
  destruct (truthy _); [|now split].
  destruct (updateImageAltTag _ _ _); now split.
Qed.

Lemma launch_cons (w : World) (dry : bool) (i : nat)
      (image : MediaAsset) (items : list MediaAsset) :
  launch w dry i (image :: items) =
  processImage w dry i image :: launch w dry (S i) items.
Proof. reflexivity. Qed.

Lemma launch_app (w : World) (dry : bool) (a b : list MediaAsset) :
  forall i,
    launch w dry i (a ++ b) =
    launch w dry i a ++ launch w dry (i + List.length a) b.
Proof.
  induction a as [|x a IH]; intros i.
  - simpl. now rewrite Nat.add_0_r.
  - rewrite <- app_comm_cons, !launch_cons, IH. simpl.
    now rewrite Nat.add_succ_r.
Qed.

Lemma length_launch (w : World) (dry : bool) (items : list MediaAsset) :
  forall i, List.length (launch w dry i items) = List.length items.
Proof.
  induction items as [|x items IH]; intros i; [reflexivity|].
  rewrite launch_cons. simpl. now rewrite IH.
Qed.

Lemma launch_generations (w : World) (dry : bool)
      (items : list MediaAsset) :
  forall i,
    generations (concat (List.map item_events (launch w dry i items))) =
    List.map generatorCall items.
Proof.
  induction items as [|x items IH]; intros i; [reflexivity|].
  rewrite launch_cons. cbn [List.map concat].
  now rewrite generations_app, processImage_generations, IH.
Qed.

Lemma launch_writes (w : World) (dry : bool) (items : list MediaAsset) :
  forall i,
    writes (concat (List.map item_events (launch w dry i items))) = [].
Proof.
  induction items as [|x items IH]; intros i; [reflexivity|].
  rewrite launch_cons. cbn [List.map concat].
  now rewrite writes_app, processImage_writes, IH.
Qed.

Lemma concat_mutations (runs : list item_run) :
  mutations (concat (List.map item_events runs)) =
  flat_map itemMutations runs.
Proof.
  induction runs as [|r runs IH]; [reflexivity|].
  cbn [List.map concat flat_map].
  now rewrite mutations_app, IH.
Qed.

Lemma launch_identity (w : World) (dry : bool)
      (items : list MediaAsset) :
  forall i,
    List.map (fun e => (imageId e, imageUrl e))
             (List.map entry (launch w dry i items)) =
    List.map (fun c => (id c, url c)) items.
Proof.
  induction items as [|x items IH]; intros i; [reflexivity|].
  rewrite launch_cons. cbn [List.map]. rewrite IH.
  destruct (processImage_identity w dry i x) as [-> ->]. reflexivity.
Qed.

Lemma insertByTime_perm (x : nat * item_run)
      (l : list (nat * item_run)) :
  Permutation (insertByTime x l) (x :: l).
Proof.
  induction l as [|y l IH]; simpl; [apply Permutation_refl|].
  destruct (fst y <=? fst x); [|apply Permutation_refl].
  rewrite IH. apply perm_swap.
Qed.

Lemma settleOrder_perm (l : list (nat * item_run)) :
  Permutation (settleOrder l) l.
Proof.
  induction l as [|x l IH]; simpl; [apply perm_nil|].
  rewrite insertByTime_perm. now apply perm_skip.
Qed.

Lemma map_snd_combine (A B : Type) (a : list A) (b : list B) :
  List.length a = List.length b ->
  List.map snd (combine a b) = b.
Proof.
  revert b. induction a as [|x a IH]; intros [|y b] H; simpl in *;
    try reflexivity; try discriminate.
  f_equal. apply IH. lia.
Qed.

Lemma batchUpdatesOf_perm (w : World) (i : nat) (runs : list item_run) :
  Permutation (batchUpdatesOf w i runs) (List.map entry runs).
Proof.
  unfold batchUpdatesOf.
  rewrite settleOrder_perm, <- (map_map snd entry), map_snd_combine;
    [apply Permutation_refl|].
  now rewrite List.length_map, length_seq.
Qed.

End Batches.

Section BatchLoop.
Import Js Shopify Index.

Lemma skipn_batch (A : Type) (l : list A) (i : nat) :
  skipn i l = slice i (i + batchSize) l ++ skipn (i + batchSize) l.
Proof.
  unfold slice. replace (i + batchSize - i) with batchSize by lia.
  rewrite <- (firstn_skipn batchSize (skipn i l)) at 1.
  f_equal. rewrite skipn_skipn. f_equal. lia.
Qed.

Lemma launch_batch (w : World) (dry : bool) (candidates : list MediaAsset)
      (i : nat) :
  launch w dry i (skipn i candidates) =
  launch w dry i (slice i (i + batchSize) candidates) ++
  launch w dry (i + batchSize) (skipn (i + batchSize) candidates).
Proof.
  rewrite (skipn_batch candidates i) at 1. rewrite launch_app.
  f_equal.
  destruct (Nat.le_gt_cases (i + batchSize) (List.length candidates))
    as [Hle|Hgt].
  - f_equal. f_equal. unfold slice.
    rewrite length_firstn, length_skipn. lia.
  - rewrite (skipn_all2 candidates) by lia. reflexivity.
Qed.

Lemma pause_silent (b : bool) (ms : N) :
  generations (if b then [EvPause ms] else []) = [] /\
  mutations (if b then [EvPause ms] else []) = [] /\
  writes (if b then [EvPause ms] else []) = [].
Proof. destruct b; repeat split. Qed.

(** What the loop adds to its state from index [i] on. *)
Lemma batch_loop_spec (w : World) (dry : bool)
      (candidates : list MediaAsset) :
  forall (fuel i : nat) (st : loop_state),
    List.length candidates <= i + batchSize * fuel ->
    exists st' more,
      batch_loop fuel w dry candidates i st = Some st' /\
      allUpdates st' = allUpdates st ++ more /\
      (i < List.length candidates -> more <> []) /\
      Permutation (flat_map updates more)
                  (List.map entry (launch w dry i (skipn i candidates))) /\
      generations (trace st') =
        generations (trace st) ++
        List.map generatorCall (skipn i candidates) /\
      mutations (trace st') =
        mutations (trace st) ++
        flat_map itemMutations (launch w dry i (skipn i candidates)) /\
      writes (trace st') = writes (trace st).
Proof.
  assert (Hstop : forall fuel i st,
             List.length candidates <= i ->
             exists st' more,
               batch_loop fuel w dry candidates i st = Some st' /\
               allUpdates st' = allUpdates st ++ more /\
               (i < List.length candidates -> more <> []) /\
               Permutation (flat_map updates more)
                 (List.map entry (launch w dry i (skipn i candidates))) /\
               generations (trace st') =
                 generations (trace st) ++
                 List.map generatorCall (skipn i candidates) /\
               mutations (trace st') =
                 mutations (trace st) ++
                 flat_map itemMutations
                          (launch w dry i (skipn i candidates)) /\
               writes (trace st') = writes (trace st)).
  { intros fuel i st Hi. exists st, [].
    rewrite (skipn_all2 candidates) by lia.
    replace (batch_loop fuel w dry candidates i st) with (Some st).
    - simpl. rewrite !app_nil_r. repeat split; try lia.
      apply perm_nil.
    - destruct fuel; cbn [batch_loop];
        destruct (Nat.ltb_spec i (List.length candidates));
        try lia; reflexivity. }
  induction fuel as [|fuel IH]; intros i st Hf.
  - apply Hstop. lia.
  - destruct (Nat.le_gt_cases (List.length candidates) i) as [Hi|Hi];
      [now apply Hstop|].
    cbn [batch_loop].
    destruct (Nat.ltb_spec i (List.length candidates)) as [_|?];
      [|lia].
    match goal with
    | |- context [batch_loop fuel w dry candidates _ ?s] =>
        destruct (IH (i + batchSize) s) as
          [st' [more [Hrun [Hall [_ [Hperm [Hgen [Hmut Hwr]]]]]]]];
        [lia|]
    end.
    cbn [allUpdates trace] in Hall, Hgen, Hmut, Hwr.
    eexists st', (_ :: more).
    split; [exact Hrun|].
    split; [rewrite Hall, <- app_assoc; reflexivity|].
    split; [discriminate|].
    split.
    { cbn [flat_map updates]. rewrite launch_batch, List.map_app.
      apply Permutation_app; [apply batchUpdatesOf_perm | exact Hperm]. }
    split.
    { rewrite Hgen, !generations_app, launch_generations.
      rewrite (proj1 (pause_silent _ _)). cbn [app].
      rewrite <- app_assoc, <- List.map_app, <- skipn_batch.
      reflexivity. }
    split.
    { rewrite Hmut, !mutations_app, concat_mutations.
      rewrite (proj1 (proj2 (pause_silent _ _))). cbn [app].
      rewrite <- app_assoc, <- flat_map_app, <- launch_batch.
      reflexivity. }
    rewrite Hwr, !writes_app, launch_writes.
    rewrite (proj2 (proj2 (pause_silent _ _))).
    now rewrite !app_nil_r.
Qed.

End BatchLoop.

(* ------------------------------------------------------------------ *)
(** ** The run *)

Section Runs.
Import Js Shopify Index.

Lemma accounts_initial (w : World) (dry : bool) :
  accounts w dry [] initial.
Proof.
  unfold accounts. simpl. repeat split; try congruence. apply perm_nil.
Qed.

Lemma batch_loop_accounts (w : World) (dry : bool)
      (candidates : list MediaAsset) :
  exists st,
    batch_loop (List.length candidates) w dry candidates 0 initial =
    Some st /\
    accounts w dry candidates st.
Proof.
  destruct (@batch_loop_spec w dry candidates
              (List.length candidates) 0 initial)
    as [st [more [Hrun [Hall [Hne [Hperm [Hgen [Hmut Hwr]]]]]]]];
    [unfold batchSize; lia|].
  exists st. split; [exact Hrun|].
  simpl in Hall, Hperm, Hgen, Hmut, Hwr. subst more.
  unfold accounts. repeat split; try assumption.
  intros Hc. apply Hne. destruct candidates; [congruence|simpl; lia].
Qed.

(** With the set-up done, the [try] block runs the loop to its end. *)
Lemma try_block_discovered (fuel : nat) (w : World) (dry : bool)
      (images : list MediaAsset) :
  discovers fuel w images ->
  mkdirError w = None ->
  exists t,
    try_block fuel w dry = Some t /\
    caught t = None /\
    accounts w dry (imagesMissingAlt images) (final t).
Proof.
  intros [Hscopes [log Hlist]] Hmk.
  unfold try_block. rewrite Hscopes, Hlist. cbn [listed].
  destruct (imagesMissingAlt images) as [|c cs] eqn:Ec.
  - cbn [List.length Nat.eqb]. eexists.
    split; [reflexivity|]. split; [reflexivity|].
    apply accounts_initial.
  - cbn [List.length Nat.eqb]. rewrite Hmk.
    destruct (batch_loop_accounts w dry (c :: cs)) as [st [Hrun Hacc]].
    cbn [List.length] in Hrun. rewrite Hrun.
    eexists. split; [reflexivity|]. split; [reflexivity|]. exact Hacc.
Qed.

(** However the [try] block is left, either nothing was done or the
    loop ran to its end on the candidates of a listing. *)
Lemma try_block_inv (fuel : nat) (w : World) (dry : bool) (t : try_run) :
  try_block fuel w dry = Some t ->
  final t = initial \/
  exists images,
    discovers fuel w images /\ mkdirError w = None /\
    accounts w dry (imagesMissingAlt images) (final t).
Proof.
  unfold try_block, thrown.
  destruct (verifyScopes requiredScopes (scopesNet w)) as [[|]|msg] eqn:Es;
    try (intros [= <-]; now left).
  destruct (getAllImages fuel (filesNet w)) as [[[images|msg] log]|] eqn:El;
    cbn [listed]; try discriminate;
    try (intros [= <-]; now left).
  destruct (List.length (imagesMissingAlt images) =? 0);
    [intros [= <-]; now left|].
  destruct (mkdirError w) as [msg|] eqn:Em;
    [intros [= <-]; now left|].
  destruct (batch_loop_accounts w dry (imagesMissingAlt images))
    as [st [Hrun Hacc]].
  rewrite Hrun. intros [= <-]. right. exists images.
  split; [split; [exact Es | now exists log]|].
  split; [reflexivity | exact Hacc].
Qed.

Lemma finalize_events (w : World) (dry : bool) (t : try_run) :
  reported (finalize w dry t) = allUpdates (final t) /\
  failure (finalize w dry t) = caught t /\
  generations (events (finalize w dry t)) =
    generations (trace (final t)) /\
  mutations (events (finalize w dry t)) = mutations (trace (final t)) /\
  writes (events (finalize w dry t)) =
    writes (trace (final t)) ++
    match allUpdates (final t) with
    | [] => []
    | _ :: _ => [{| dryRun := dry; batches := allUpdates (final t) |}]
    end.
Proof.
  unfold finalize.
  destruct (allUpdates (final t)) as [|b bs] eqn:E; simpl.
  - now rewrite app_nil_r.
  - rewrite generations_app, mutations_app, writes_app. simpl.
    now rewrite !app_nil_r.
Qed.

(** A run whose set-up succeeds: it ends, nothing is caught, and its
    report and calls account for the candidates. *)
Lemma main_discovered (fuel : nat) (w : World) (dry : bool)
      (images : list MediaAsset) :
  discovers fuel w images ->
  mkdirError w = None ->
  exists run,
    main fuel w dry = Some run /\
    failure run = None /\
    Permutation (flat_map updates (reported run))
      (List.map entry (launch w dry 0 (imagesMissingAlt images))) /\
    generations (events run) =
      List.map generatorCall (imagesMissingAlt images) /\
    mutations (events run) =
      flat_map itemMutations (launch w dry 0 (imagesMissingAlt images)) /\
    (imagesMissingAlt images <> [] ->
     writes (events run) =
     [{| dryRun := dry; batches := reported run |}]).
Proof.
  intros Hd Hmk.
  destruct (try_block_discovered dry Hd Hmk)
    as [t [Ht [Hc [Hne [Hperm [Hgen [Hmut Hwr]]]]]]].
  exists (finalize w dry t). unfold main. rewrite Ht.
  destruct (finalize_events w dry t) as [-> [-> [-> [-> ->]]]].
  repeat split; try assumption.
  intros Hcands. rewrite Hwr.
  destruct (allUpdates (final t)); [now apply Hne in Hcands|reflexivity].
Qed.

(** The report is handed to [fs.writeFile] once when there is a batch
    and never otherwise. *)
Lemma main_writes (fuel : nat) (w : World) (dry : bool) (run : Run) :
  main fuel w dry = Some run ->
  writes (events run) =
  match reported run with
  | [] => []
  | _ :: _ => [{| dryRun := dry; batches := reported run |}]
  end.
Proof.
  unfold main.
  destruct (try_block fuel w dry) as [t|] eqn:Et; [|discriminate].
  intros [= <-].
  destruct (finalize_events w dry t) as [-> [_ [_ [_ ->]]]].
  destruct (try_block_inv _ _ _ Et) as [->|[images [_ [_ Hacc]]]].
  - reflexivity.
  - destruct Hacc as [_ [_ [_ [_ ->]]]]. reflexivity.
Qed.

Lemma launch_In (w : World) (dry : bool) (items : list MediaAsset) :
  forall (i k : nat) (image : MediaAsset),
    nth_error items k = Some image ->
    In (processImage w dry (i + k) image) (launch w dry i items).
Proof.
  induction items as [|x items IH]; intros i [|k] image H;
    simpl in H; try discriminate.
  - injection H as ->. rewrite Nat.add_0_r, launch_cons. now left.
  - rewrite launch_cons. right.
    replace (i + S k) with (S i + k) by lia. now apply IH.
Qed.

Lemma launch_dry (w : World) (items : list MediaAsset) :
  forall i,
    flat_map itemMutations (launch w true i items) = [] /\
    List.map entry (launch w true i items) =
    List.map (fun p => dryEntry w (fst p) (snd p))
             (combine (seq i (List.length items)) items).
Proof.
  induction items as [|x items IH]; intros i; [now split|].
  rewrite launch_cons. destruct (IH (S i)) as [Hm He].
  cbn [flat_map List.map List.length seq combine].
  rewrite Hm, He. now split.
Qed.

End Runs.

(* ------------------------------------------------------------------ *)
(** ** Properties of the run *)

Section RunProperties.
Import Js Shopify Index.

Lemma scenario_discovered :
  discovers 2 Scenario.store Scenario.listedImages /\
  imagesMissingAlt Scenario.listedImages =
  [Scenario.dakImage; Scenario.bareImage].
Proof.
  split; [split; [reflexivity | eexists; reflexivity] | reflexivity].
Qed.

(** Claim C2, as the code has it.  When the required scopes are
    missing the run ends before any listing, generation or mutation, the
    error is logged and no report is written; in every run the report
    is handed to [fs.writeFile] exactly once when at least one batch was
    completed, and not at all otherwise. *)
Theorem report_written_once_iff_batches :
  (forall (fuel : nat) (w : World) (dry : bool),
      verifyScopes requiredScopes (scopesNet w) = Ok false ->
      main fuel w dry =
      Some {| reported := []; events := [];
              failure := Some missingScopesMessage; saved := None |}) /\
  (forall (fuel : nat) (w : World) (dry : bool) (run : Run),
      main fuel w dry = Some run ->
      writes (events run) =
      match reported run with
      | [] => []
      | _ :: _ => [{| dryRun := dry; batches := reported run |}]
      end).
Proof.
  split.
  - intros fuel w dry Hs. unfold main, try_block. now rewrite Hs.
  - apply main_writes.
Qed.

Lemma report_written_once_iff_batches_witness :
  main 2 Scenario.unscopedStore false =
    Some {| reported := []; events := [];
            failure := Some missingScopesMessage; saved := None |} /\
  writes (events {| reported := []; events := [];
                    failure := Some missingScopesMessage;
                    saved := None |}) = [].
Proof.
  destruct report_written_once_iff_batches as [Hscopes Hwrites].
  assert (Hrun := Hscopes 2 Scenario.unscopedStore false eq_refl).
  split; [exact Hrun|].
  exact (Hwrites 2 Scenario.unscopedStore false _ Hrun).
Defined.

(** Claim C2 fails as stated.  Behind a token that lacks
    [write_files] the run aborts and nothing is handed to
    [fs.writeFile]: no report with zero batches is written. *)
Lemma missing_scopes_write_no_report :
  verifyScopes requiredScopes (scopesNet Scenario.unscopedStore) =
    Ok false /\
  exists run,
    main 2 Scenario.unscopedStore false = Some run /\
    writes (events run) = [] /\
    saved run = None /\
    ~ (exists r, In (EvWriteFile r) (events run)).
Proof.
  split; [reflexivity|].
  eexists. split; [reflexivity|].
  split; [reflexivity|]. split; [reflexivity|].
  intros [r []].
Qed.

(** Claim C5.  In a run that reaches the batch loop, the entries of
    the final report are, up to the order in which the promises settle,
    the entries of the candidates: one for each candidate, carrying its
    identifier and URL, whatever the outcome of its generation and of
    its mutation; and that report is the one handed to [fs.writeFile]. *)
Theorem one_entry_per_candidate (fuel : nat) (w : World) (dry : bool)
        (images : list MediaAsset) :
  discovers fuel w images ->
  mkdirError w = None ->
  exists run,
    main fuel w dry = Some run /\
    Permutation (flat_map updates (reported run))
      (List.map entry (launch w dry 0 (imagesMissingAlt images))) /\
    Permutation
      (List.map (fun e => (imageId e, imageUrl e))
                (flat_map updates (reported run)))
      (List.map (fun c => (id c, url c)) (imagesMissingAlt images)) /\
    List.length (flat_map updates (reported run)) =
      List.length (imagesMissingAlt images) /\
    (imagesMissingAlt images <> [] ->
     writes (events run) =
     [{| dryRun := dry; batches := reported run |}]).
Proof.
  intros Hd Hmk.
  destruct (main_discovered dry Hd Hmk)
    as [run [Hrun [_ [Hperm [_ [_ Hwr]]]]]].
  exists run. split; [exact Hrun|]. split; [exact Hperm|].
  split; [|split; [|exact Hwr]].
  - rewrite <- (launch_identity w dry (imagesMissingAlt images) 0).
    now apply Permutation_map.
  - rewrite (Permutation_length Hperm), List.length_map.
    apply length_launch.
Qed.

Lemma one_entry_per_candidate_witness :
  exists run,
    main 2 Scenario.store false = Some run /\
    Permutation (flat_map updates (reported run))
      (List.map entry
         (launch Scenario.store false 0
                 (imagesMissingAlt Scenario.listedImages))) /\
    Permutation
      (List.map (fun e => (imageId e, imageUrl e))
                (flat_map updates (reported run)))
      (List.map (fun c => (id c, url c))
                (imagesMissingAlt Scenario.listedImages)) /\
    List.length (flat_map updates (reported run)) =
      List.length (imagesMissingAlt Scenario.listedImages) /\
    (imagesMissingAlt Scenario.listedImages <> [] ->
     writes (events run) =
     [{| dryRun := false; batches := reported run |}]).
Proof.
  apply (@one_entry_per_candidate 2 Scenario.store false
           Scenario.listedImages).
  - exact (proj1 scenario_discovered).
  - reflexivity.
Defined.

Lemma dry_run_no_mutation (fuel : nat) (w : World) (run : Run) :
  main fuel w true = Some run -> mutations (events run) = [].
Proof.
  unfold main.
  destruct (try_block fuel w true) as [t|] eqn:Et; [|discriminate].
  intros [= <-].
  destruct (finalize_events w true t) as [_ [_ [_ [-> _]]]].
  destruct (try_block_inv _ _ _ Et) as [->|[images [_ [_ Hacc]]]].
  - reflexivity.
  - destruct Hacc as [_ [_ [_ [-> _]]]]. apply launch_dry.
Qed.

(** Claim C9.  In dry-run mode no run issues a write mutation; and in
    a run that reaches the batch loop the report records, for each
    candidate, the text the generator returned for it, whatever that
    text is. *)
Theorem dry_run_records_without_writing (fuel : nat) (w : World) :
  (forall run, main fuel w true = Some run ->
               mutations (events run) = []) /\
  (forall images,
      discovers fuel w images ->
      mkdirError w = None ->
      exists run,
        main fuel w true = Some run /\
        mutations (events run) = [] /\
        Permutation (flat_map updates (reported run))
          (List.map (fun p => dryEntry w (fst p) (snd p))
             (combine (seq 0 (List.length (imagesMissingAlt images)))
                      (imagesMissingAlt images))) /\
        (imagesMissingAlt images <> [] ->
         writes (events run) =
         [{| dryRun := true; batches := reported run |}])).
Proof.
  split; [intros run; apply dry_run_no_mutation|].
  intros images Hd Hmk.
  destruct (main_discovered true Hd Hmk)
    as [run [Hrun [_ [Hperm [_ [_ Hwr]]]]]].
  exists run. split; [exact Hrun|].
  split; [now apply (dry_run_no_mutation fuel w)|].
  split; [|exact Hwr].
  now rewrite <- (proj2 (launch_dry w (imagesMissingAlt images) 0)).
Qed.

Lemma dry_run_records_without_writing_witness :
  exists run,
    main 2 Scenario.store true = Some run /\
    mutations (events run) = [] /\
    Permutation (flat_map updates (reported run))
      (List.map (fun p => dryEntry Scenario.store (fst p) (snd p))
         (combine
            (seq 0 (List.length (imagesMissingAlt Scenario.listedImages)))
            (imagesMissingAlt Scenario.listedImages))) /\
    (imagesMissingAlt Scenario.listedImages <> [] ->
     writes (events run) =
     [{| dryRun := true; batches := reported run |}]).
Proof.
  apply (proj2 (dry_run_records_without_writing 2 Scenario.store)
               Scenario.listedImages).
  - exact (proj1 scenario_discovered).
  - reflexivity.
Defined.

End RunProperties.

(* ------------------------------------------------------------------ *)
(** ** Refusals and assets without URL *)

Section Refusals.
Import Js Shopify Index.

Lemma generateAltTag_refusal (title : string) (remote : Gpt.api) :
  remote 0 = Gpt.Refusal ->
  Gpt.value (Gpt.generateAltTag title remote) = Gpt.fallback title /\
  Gpt.calls (Gpt.generateAltTag title remote) = 1.
Proof.
  intros H. unfold Gpt.generateAltTag, Gpt.maxAttempts.
  cbn [Gpt.model_loop]. unfold Gpt.maxAttempts, Gpt.try_body.
  change (0 <? 3) with true. cbv iota. rewrite H.
  destruct (Gpt.fallback title); now split.
Qed.

Lemma fallback_truthy (title text : string) :
  Gpt.fallback title = Some text ->
  truthy (Some text) = true /\ orElse (Some text) EmptyString = text.
Proof.
  intros H. apply fallback_some in H as [_ H].
  apply fallbackValid_iff in H as [[H _] _].
  destruct text; [simpl in H; lia | now split].
Qed.

(** A refused candidate in live mode: its entry and its mutations. *)
Lemma processImage_refusal (w : World) (k : nat) (image : MediaAsset) :
  openai w k 0 = Gpt.Refusal ->
  match Gpt.fallback (titleOf image) with
  | None =>
      entry (processImage w false k image) =
        {| imageId := id image; altTag := None;
           imageUrl := url image; error := None |} /\
      itemMutations (processImage w false k image) = []
  | Some text =>
      itemMutations (processImage w false k image) = [(id image, text)] /\
      (altTag (entry (processImage w false k image)) = Some text \/
       altTag (entry (processImage w false k image)) = None /\
       error (entry (processImage w false k image)) <> None)
  end.
Proof.
  intros H.
  destruct (generateAltTag_refusal (titleOf image) _ H) as [Hv _].
  unfold processImage, itemMutations. rewrite Hv.
  destruct (Gpt.fallback (titleOf image)) as [text|] eqn:Ef.
  - destruct (fallback_truthy _ Ef) as [-> ->].
    destruct (updateImageAltTag _ _ _); simpl.
    + split; [reflexivity | now left].
    + split; [reflexivity | right; split; [reflexivity|discriminate]].
  - now split.
Qed.

(** Claim C3, as the code has it.  For a candidate in live mode whose
    generator call returns a refusal, the generator stops after that
    one call and yields the fallback for the title.  When the fallback
    is rejected, the candidate's entry has a null [altTag] and no write
    mutation is issued for it; when it is accepted, the write mutation
    is issued with the fallback text, and the entry carries that text
    or, if the mutation fails, the error.  The entry is in the report
    and the mutations of the run are those of its candidates. *)
Theorem refusal_yields_fallback (fuel : nat) (w : World)
        (images : list MediaAsset) (k : nat) (image : MediaAsset) :
  discovers fuel w images ->
  mkdirError w = None ->
  nth_error (imagesMissingAlt images) k = Some image ->
  openai w k 0 = Gpt.Refusal ->
  exists run,
    main fuel w false = Some run /\
    In (entry (processImage w false k image))
       (flat_map updates (reported run)) /\
    mutations (events run) =
      flat_map itemMutations
               (launch w false 0 (imagesMissingAlt images)) /\
    Gpt.calls (Gpt.generateAltTag (titleOf image) (openai w k)) = 1 /\
    match Gpt.fallback (titleOf image) with
    | None =>
        entry (processImage w false k image) =
          {| imageId := id image; altTag := None;
             imageUrl := url image; error := None |} /\
        itemMutations (processImage w false k image) = []
    | Some text =>
        itemMutations (processImage w false k image) =
          [(id image, text)] /\
        (altTag (entry (processImage w false k image)) = Some text \/
         altTag (entry (processImage w false k image)) = None /\
         error (entry (processImage w false k image)) <> None)
    end.
Proof.
  intros Hd Hmk Hk Href.
  destruct (main_discovered false Hd Hmk)
    as [run [Hrun [_ [Hperm [_ [Hmut _]]]]]].
  exists run. split; [exact Hrun|]. split.
  - apply (Permutation_in _ (Permutation_sym Hperm)).
    apply in_map. exact (launch_In w false _ 0 k Hk).
  - split; [exact Hmut|]. split.
    + exact (proj2 (generateAltTag_refusal (titleOf image) _ Href)).
    + now apply processImage_refusal.
Qed.

Lemma refusal_yields_fallback_witness :
  exists run,
    main 2 Scenario.store false = Some run /\
    In (entry (processImage Scenario.store false 1 Scenario.bareImage))
       (flat_map updates (reported run)) /\
    mutations (events run) =
      flat_map itemMutations
        (launch Scenario.store false 0
                (imagesMissingAlt Scenario.listedImages)) /\
    Gpt.calls (Gpt.generateAltTag (titleOf Scenario.bareImage)
                                  (openai Scenario.store 1)) = 1 /\
    entry (processImage Scenario.store false 1 Scenario.bareImage) =
      {| imageId := id Scenario.bareImage; altTag := None;
         imageUrl := url Scenario.bareImage; error := None |} /\
    itemMutations (processImage Scenario.store false 1 Scenario.bareImage)
    = [].
Proof.
  apply (@refusal_yields_fallback 2 Scenario.store Scenario.listedImages
           1 Scenario.bareImage).
  - exact (proj1 scenario_discovered).
  - reflexivity.
  - reflexivity.
  - reflexivity.
Defined.

(** Claim C3 fails as stated.  In live mode the generator refuses the
    first candidate of the store; the run still issues a write mutation
    for it, with the fallback text, and records that text. *)
Lemma refusal_still_writes :
  openai Scenario.store 0 0 = Gpt.Refusal /\
  nth_error (imagesMissingAlt Scenario.listedImages) 0 =
    Some Scenario.dakImage /\
  exists run,
    main 2 Scenario.store false = Some run /\
    mutations (events run) =
      [(id Scenario.dakImage, Scenario.dakText)] /\
    flat_map updates (reported run) =
      [{| imageId := id Scenario.dakImage;
          altTag := Some Scenario.dakText;
          imageUrl := url Scenario.dakImage; error := None |};
       {| imageId := id Scenario.bareImage; altTag := None;
          imageUrl := url Scenario.bareImage; error := None |}].
Proof.
  split; [reflexivity|]. split; [reflexivity|].
  eexists. split; [reflexivity|]. split; reflexivity.
Qed.

Lemma orElse_falsy (a : option string) (b : string) :
  truthy a = false -> orElse a b = b.
Proof. destruct a as [[|c t]|]; simpl; congruence. Qed.

Lemma endsWith_empty : endsWith ".svg" (toLowerCase EmptyString) = false.
Proof. reflexivity. Qed.

(** Claim C10.  A listed record without image URL becomes an asset
    whose [url] is the empty string; the empty string does not end in
    ".svg", so the asset passes the format test; if its alt text is
    blank it is a candidate, and every run that reaches the batch loop
    with it calls the generator with an empty image URL. *)
Theorem asset_without_url_is_generated (e : edge) :
  truthy (nodeUrl (edge_node e)) = false ->
  url (assetOfEdge e) = EmptyString /\
  isSupportedFormat (assetOfEdge e) = true /\
  (altBlank (alt (edge_node e)) ->
   isCandidate (assetOfEdge e) = true /\
   forall (fuel : nat) (w : World) (dry : bool)
          (images : list MediaAsset),
     discovers fuel w images ->
     mkdirError w = None ->
     In (assetOfEdge e) images ->
     exists run,
       main fuel w dry = Some run /\
       In (EmptyString, titleOf (assetOfEdge e))
          (generations (events run))).
Proof.
  intros Hu.
  assert (Hurl : url (assetOfEdge e) = EmptyString)
    by (unfold assetOfEdge; cbn [url]; now apply orElse_falsy).
  assert (Hfmt : isSupportedFormat (assetOfEdge e) = true)
    by (unfold isSupportedFormat; now rewrite Hurl, endsWith_empty).
  split; [exact Hurl|]. split; [exact Hfmt|].
  intros Hblank.
  assert (Hcand : isCandidate (assetOfEdge e) = true).
  { unfold isCandidate. rewrite Hfmt, andb_true_r.
    now apply isMissingAlt_iff. }
  split; [exact Hcand|].
  intros fuel w dry images Hd Hmk Hin.
  destruct (main_discovered dry Hd Hmk)
    as [run [Hrun [_ [_ [Hgen _]]]]].
  exists run. split; [exact Hrun|].
  rewrite Hgen, <- Hurl.
  apply (in_map generatorCall). unfold imagesMissingAlt.
  apply filter_In. now split.
Qed.

Lemma asset_without_url_is_generated_witness :
  url (assetOfEdge
         (Scenario.mediaNode "gid://shopify/MediaImage/4" None None)) =
    EmptyString /\
  isSupportedFormat
    (assetOfEdge
       (Scenario.mediaNode "gid://shopify/MediaImage/4" None None)) =
    true /\
  isCandidate
    (assetOfEdge
       (Scenario.mediaNode "gid://shopify/MediaImage/4" None None)) =
    true /\
  exists run,
    main 2 Scenario.store false = Some run /\
    In (EmptyString, "4") (generations (events run)).
Proof.
  destruct (@asset_without_url_is_generated
              (Scenario.mediaNode "gid://shopify/MediaImage/4" None None)
              eq_refl) as [Hurl [Hfmt Hrest]].
  destruct (Hrest (or_introl eq_refl)) as [Hcand Hruns].
  split; [exact Hurl|]. split; [exact Hfmt|]. split; [exact Hcand|].
  apply (Hruns 2 Scenario.store false Scenario.listedImages).
  - exact (proj1 scenario_discovered).
  - reflexivity.
  - simpl. tauto.
Defined.

End Refusals.

(* ------------------------------------------------------------------ *)
(** ** Behaviour of [request] *)

Section RequestBehaviour.
Import Js Shopify Notions.

Lemma seq_snoc (a : nat) : seq 1 (S a) = seq 1 a ++ [S a].
Proof. now rewrite seq_S. Qed.

Lemma request_loop_delays (D : Type) (net : transport D) :
  forall (fuel a : nat) (waits : list nat) (r : request_run D),
    request_loop fuel net a a waits = Some r ->
    waits = List.map linearDelay (seq 1 a) ->
    a <= maxAttempts ->
    exists m,
      delays r = List.map linearDelay (seq 1 m) /\
      m <= maxAttempts /\
      (fetches r = m + 1 \/
       m = maxAttempts /\ fetches r = maxAttempts /\
       outcome r = Err maxRetryMessage).
Proof.
  unfold maxAttempts.
  induction fuel as [|fuel IH]; intros a waits r;
    cbn [request_loop]; unfold maxAttempts;
    destruct (Nat.ltb_spec a 3) as [Hlt|Hge]; try discriminate.
  - intros [= <-] Hw Ha. exists a. cbn [delays fetches outcome].
    split; [exact Hw|]. split; [lia|]. right. repeat split; lia.
  - assert (Hnext : waits = List.map linearDelay (seq 1 a) ->
                    waits ++ [1000 * S a] =
                    List.map linearDelay (seq 1 (S a))).
    { intros ->. now rewrite seq_snoc, List.map_app. }
    destruct (Shopify.try_body (net a)) as [|d|msg].
    + intros H Hw Ha. apply (IH _ _ _ H); [now apply Hnext | lia].
    + intros [= <-] Hw Ha. exists a. cbn [delays fetches].
      split; [exact Hw|]. split; [lia|]. left. lia.
    + destruct (retryable msg && (S a <? 3)).
      * intros H Hw Ha. apply (IH _ _ _ H); [now apply Hnext | lia].
      * intros [= <-] Hw Ha. exists a. cbn [delays fetches].
        split; [exact Hw|]. split; [lia|]. left. lia.
  - intros [= <-] Hw Ha. exists a. cbn [delays fetches outcome].
    split; [exact Hw|]. split; [lia|]. right. repeat split; lia.
Qed.

(** Extra X1.  The waits of one logical request grow linearly: the wait
    after attempt k is 1000 ms times k.  There is one wait between two
    consecutive attempts; only a request that ends on a third 429 also
    waits after its last attempt, before it raises the "max retries"
    error. *)
Theorem request_backoff_is_linear (D : Type) (net : transport D) :
  exists m,
    delays (request net) = List.map linearDelay (seq 1 m) /\
    m <= 3 /\
    (fetches (request net) = m + 1 \/
     m = 3 /\ fetches (request net) = 3 /\
     outcome (request net) = Err maxRetryMessage).
Proof.
  apply (@request_loop_delays D net maxAttempts 0 []);
    [apply request_is_loop | reflexivity | unfold maxAttempts; lia].
Qed.

Lemma try_body_return (D : Type) (o : fetch_outcome D) (d : D) :
  Shopify.try_body o = Shopify.Return d ->
  exists r, o = FetchResponse r /\ ok r = true /\ errors r = None /\
            data r = d.
Proof.
  unfold Shopify.try_body. destruct o as [msg|r]; [discriminate|].
  destruct (ok r) eqn:Eok; cbn [negb].
  - destruct (errors r) eqn:Ee; [discriminate|].
    intros [= <-]. now exists r.
  - destruct (status r =? 429); [discriminate|].
    match goal with |- context [if ?c then _ else _] => destruct c end;
      discriminate.
Qed.

Lemma request_loop_success (D : Type) (net : transport D) :
  forall (fuel a s : nat) (waits : list nat) (r : request_run D) (d : D),
    request_loop fuel net a s waits = Some r ->
    outcome r = Ok d ->
    s < fetches r /\
    Shopify.try_body (net (fetches r - 1)) = Shopify.Return d /\
    forall j, s <= j < fetches r - 1 -> retried (net j) = true.
Proof.
  induction fuel as [|fuel IH]; intros a s waits r d;
    cbn [request_loop];
    destruct (a <? maxAttempts); try discriminate;
    try (intros [= <-]; discriminate).
  destruct (Shopify.try_body (net s)) as [|d0|msg] eqn:Eb.
  - intros H Hd. destruct (IH _ _ _ _ _ H Hd) as [Hs [Hlast Hbefore]].
    split; [lia|]. split; [exact Hlast|].
    intros j Hj. destruct (Nat.eq_dec j s) as [->|Hne].
    + unfold retried. now rewrite Eb.
    + apply Hbefore. lia.
  - intros [= <-] [= ->]. cbn [fetches].
    replace (S s - 1) with s by lia.
    split; [lia|]. split; [exact Eb|]. intros j Hj. lia.
  - destruct (retryable msg) eqn:Er; cbn [andb].
    + destruct (S a <? maxAttempts); [|intros [= <-]; discriminate].
      intros H Hd. destruct (IH _ _ _ _ _ H Hd) as [Hs [Hlast Hbefore]].
      split; [lia|]. split; [exact Hlast|].
      intros j Hj. destruct (Nat.eq_dec j s) as [->|Hne].
      * unfold retried. now rewrite Eb.
      * apply Hbefore. lia.
    + intros [= <-]; discriminate.
Qed.

(** Extra X2.  When a logical request returns data, the data is the
    payload of its last attempt, that attempt received an ok response
    without GraphQL errors, and every attempt before it was a 429 or a
    throw that names a timeout or 429. *)
Theorem request_returns_last_payload (D : Type) (net : transport D)
        (d : D) :
  outcome (request net) = Ok d ->
  1 <= fetches (request net) <= 3 /\
  (exists r, net (fetches (request net) - 1) = FetchResponse r /\
             ok r = true /\ errors r = None /\ data r = d) /\
  forall j, j < fetches (request net) - 1 -> retried (net j) = true.
Proof.
  intros Hd.
  assert (Hloop := request_is_loop net).
  destruct (request_loop_success _ _ _ _ _ Hloop Hd) as [Hs [Hlast Hb]].
  apply request_loop_bound in Hloop. simpl in Hloop.
  split; [lia|]. split.
  - now apply try_body_return.
  - intros j Hj. apply Hb. lia.
Qed.

Lemma request_returns_last_payload_witness :
  1 <= fetches (request (Scenario.delivering 7)) <= 3 /\
  (exists r, Scenario.delivering 7
               (fetches (request (Scenario.delivering 7)) - 1) =
             FetchResponse r /\
             ok r = true /\ errors r = None /\ data r = 7) /\
  forall j, j < fetches (request (Scenario.delivering 7)) - 1 ->
            retried (Scenario.delivering 7 j) = true.
Proof.
  apply (@request_returns_last_payload nat (Scenario.delivering 7) 7).
  reflexivity.
Defined.

End RequestBehaviour.

Section RequestOutcomes.
Import Js Shopify Notions.

Lemma request_first_step (D : Type) (net : transport D) :
  request_loop maxAttempts net 0 0 [] =
  match Shopify.try_body (net 0) with
  | Continue429 => request_loop 2 net 1 1 [1000]
  | Shopify.Return d =>
      Some {| outcome := Ok d; fetches := 1; delays := [] |}
  | Shopify.Throw msg =>
      if retryable msg then request_loop 2 net 1 1 [1000]
      else Some {| outcome := Err msg; fetches := 1; delays := [] |}
  end.
Proof.
  unfold maxAttempts. cbn [request_loop]. unfold maxAttempts.
  change (0 <? 3) with true. change (1 <? 3) with true. cbv iota.
  destruct (Shopify.try_body (net 0)) as [|d|msg]; try reflexivity.
  now rewrite andb_true_r.
Qed.

Lemma request_second_step (D : Type) (net : transport D) :
  request_loop 2 net 1 1 [1000] =
  match Shopify.try_body (net 1) with
  | Continue429 => request_loop 1 net 2 2 [1000; 2000]
  | Shopify.Return d =>
      Some {| outcome := Ok d; fetches := 2; delays := [1000] |}
  | Shopify.Throw msg =>
      if retryable msg then request_loop 1 net 2 2 [1000; 2000]
      else Some {| outcome := Err msg; fetches := 2; delays := [1000] |}
  end.
Proof.
  cbn [request_loop]. unfold maxAttempts.
  change (1 <? 3) with true. change (2 <? 3) with true. cbv iota.
  destruct (Shopify.try_body (net 1)) as [|d|msg]; try reflexivity.
  now rewrite andb_true_r.
Qed.

Lemma request_third_step (D : Type) (net : transport D) :
  request_loop 1 net 2 2 [1000; 2000] =
  match Shopify.try_body (net 2) with
  | Continue429 =>
      Some {| outcome := Err maxRetryMessage; fetches := 3;
              delays := [1000; 2000; 3000] |}
  | Shopify.Return d =>
      Some {| outcome := Ok d; fetches := 3; delays := [1000; 2000] |}
  | Shopify.Throw msg =>
      Some {| outcome := Err msg; fetches := 3; delays := [1000; 2000] |}
  end.
Proof.
  cbn [request_loop]. unfold maxAttempts.
  change (2 <? 3) with true. change (3 <? 3) with false. cbv iota.
  destruct (Shopify.try_body (net 2)) as [|d|msg]; try reflexivity.
  now rewrite andb_false_r.
Qed.

Lemma request_unroll (D : Type) (net : transport D) (r : request_run D) :
  request_loop maxAttempts net 0 0 [] = Some r -> request net = r.
Proof. unfold request. now intros ->. Qed.

Lemma try_body_429 (D : Type) (r : response D) :
  ok r = false -> status r = 429 ->
  Shopify.try_body (FetchResponse r) = Continue429.
Proof. intros Hok Hs. unfold Shopify.try_body. now rewrite Hok, Hs. Qed.

(** Extra X3.  When the first three attempts of a logical request are
    answered with HTTP 429, the request waits 1000, 2000 and 3000 ms,
    makes no fourth attempt and raises the "max retries" error. *)
Theorem request_gives_up_after_three_429 (D : Type) (net : transport D) :
  (forall k, k < 3 ->
             exists r, net k = FetchResponse r /\
                       ok r = false /\ status r = 429) ->
  request net =
  {| outcome := Err maxRetryMessage; fetches := 3;
     delays := [1000; 2000; 3000] |}.
Proof.
  intros H. apply request_unroll.
  destruct (H 0) as [r0 [E0 [Hok0 Hs0]]]; [lia|].
  destruct (H 1) as [r1 [E1 [Hok1 Hs1]]]; [lia|].
  destruct (H 2) as [r2 [E2 [Hok2 Hs2]]]; [lia|].
  rewrite request_first_step, E0, (try_body_429 r0 Hok0 Hs0).
  rewrite request_second_step, E1, (try_body_429 r1 Hok1 Hs1).
  now rewrite request_third_step, E2, (try_body_429 r2 Hok2 Hs2).
Qed.

Lemma request_gives_up_after_three_429_witness :
  request (fun _ : nat =>
             FetchResponse {| ok := false; status := 429;
                              statusText := "Too Many Requests";
                              errors := None; data := tt |}) =
  {| outcome := Err maxRetryMessage; fetches := 3;
     delays := [1000; 2000; 3000] |}.
Proof.
  apply request_gives_up_after_three_429.
  intros k _. eexists. repeat split; reflexivity.
Defined.

(** Extra X4.  When the first attempt of a logical request throws (a
    transport failure, or an HTTP or GraphQL error raised by the client
    itself), the request makes a second attempt exactly when the message
    names "ETIMEDOUT" or "429"; otherwise the error is raised at once,
    after one attempt and without waiting. *)
Theorem request_retries_only_named_errors (D : Type) (net : transport D)
        (msg : string) :
  Shopify.try_body (net 0) = Shopify.Throw msg ->
  (retryable msg = false ->
   request net = {| outcome := Err msg; fetches := 1; delays := [] |}) /\
  (retryable msg = true -> 2 <= fetches (request net) <= 3).
Proof.
  intros Hb. split; intros Hr.
  - apply request_unroll. now rewrite request_first_step, Hb, Hr.
  - assert (Hloop := request_is_loop net).
    rewrite request_first_step, Hb, Hr in Hloop.
    apply request_loop_bound in Hloop. simpl in Hloop. lia.
Qed.

Lemma request_retries_only_named_errors_witness :
  request (fun _ : nat => @FetchThrows unit "ECONNRESET") =
  {| outcome := Err "ECONNRESET"; fetches := 1; delays := [] |}.
Proof.
  exact (proj1 (@request_retries_only_named_errors unit
                  (fun _ => FetchThrows "ECONNRESET") "ECONNRESET"
                  eq_refl) eq_refl).
Defined.

Lemma costExceeded_not_retryable : retryable costExceededMessage = false.
Proof. reflexivity. Qed.

(** Extra X5.  A response that is not ok, whose status is not 429 and
    whose errors carry the code MAX_COST_EXCEEDED makes the request raise
    the "query cost exceeded" error at once: one attempt, no wait, no
    retry. *)
Theorem request_cost_exceeded_is_fatal (D : Type) (net : transport D)
        (r : response D) :
  net 0 = FetchResponse r ->
  ok r = false ->
  status r <> 429 ->
  costExceeded r = true ->
  request net =
  {| outcome := Err costExceededMessage; fetches := 1; delays := [] |}.
Proof.
  intros E Hok Hs Hc.
  assert (Hb : Shopify.try_body (net 0) = Shopify.Throw costExceededMessage).
  { unfold Shopify.try_body. rewrite E, Hok. cbn [negb].
    apply Nat.eqb_neq in Hs. rewrite Hs.
    unfold costExceeded in Hc. now rewrite Hc. }
  apply request_unroll.
  now rewrite request_first_step, Hb, costExceeded_not_retryable.
Qed.

Lemma request_cost_exceeded_is_fatal_witness :
  request (fun _ : nat =>
             FetchResponse
               {| ok := false; status := 200; statusText := "OK";
                  errors := Some [{| message := "Query cost is 1200";
                                     ext_code := Some "MAX_COST_EXCEEDED" |}];
                  data := tt |}) =
  {| outcome := Err costExceededMessage; fetches := 1; delays := [] |}.
Proof.
  eapply request_cost_exceeded_is_fatal;
    [reflexivity | reflexivity | simpl; lia | reflexivity].
Defined.

(** Extra X6.  When the first three attempts all throw an error that
    names "ETIMEDOUT" or "429", the request waits 1000 and 2000 ms and
    raises the error of the third attempt, not the "max retries"
    error. *)
Theorem request_rethrows_third_error (D : Type) (net : transport D) :
  (forall k, k < 3 ->
             exists msg, net k = FetchThrows msg /\ retryable msg = true) ->
  exists msg,
    net 2 = FetchThrows msg /\
    request net =
    {| outcome := Err msg; fetches := 3; delays := [1000; 2000] |}.
Proof.
  intros H.
  destruct (H 0) as [m0 [E0 R0]]; [lia|].
  destruct (H 1) as [m1 [E1 R1]]; [lia|].
  destruct (H 2) as [m2 [E2 R2]]; [lia|].
  exists m2. split; [exact E2|]. apply request_unroll.
  rewrite request_first_step, E0. cbn [Shopify.try_body]. rewrite R0.
  rewrite request_second_step, E1. cbn [Shopify.try_body]. rewrite R1.
  now rewrite request_third_step, E2.
Qed.

Lemma request_rethrows_third_error_witness :
  exists msg,
    (fun _ : nat => @FetchThrows unit "connect ETIMEDOUT") 2 =
      FetchThrows msg /\
    request (fun _ : nat => @FetchThrows unit "connect ETIMEDOUT") =
    {| outcome := Err msg; fetches := 3; delays := [1000; 2000] |}.
Proof.
  apply (@request_rethrows_third_error unit
           (fun _ => FetchThrows "connect ETIMEDOUT")).
  intros k _. eexists. split; reflexivity.
Defined.

End RequestOutcomes.

(* ------------------------------------------------------------------ *)
(** ** Behaviour of [verifyScopes] and of the listing *)

Section ClientBehaviour.
Import Js Shopify Notions.

Lemma includesScope_iff (granted : list string) (scope : string) :
  includesScope granted scope = true <-> In scope granted.
Proof.
  unfold includesScope. rewrite existsb_exists. split.
  - intros [x [Hin Heq]]. apply String.eqb_eq in Heq. now subst.
  - intros Hin. exists scope. split; [exact Hin | apply String.eqb_refl].
Qed.

(** Extra X7.  [verifyScopes] answers true exactly when the request for
    the granted scopes succeeds and every required scope is among the
    handles it returns; further granted scopes and their order do not
    matter. *)
Theorem verifyScopes_true_iff (required : list string)
        (net : transport scopes_data) :
  verifyScopes required net = Ok true <->
  exists granted,
    outcome (request net) = Ok (Some granted) /\
    forall scope, In scope required -> In scope granted.
Proof.
  unfold verifyScopes. split.
  - destruct (outcome (request net)) as [[granted|]|msg];
      try discriminate.
    intros [= H]. exists granted. split; [reflexivity|].
    intros scope Hin. apply includesScope_iff.
    rewrite forallb_forall in H. now apply H.
  - intros [granted [-> H]]. f_equal. apply forallb_forall.
    intros scope Hin. apply includesScope_iff. now apply H.
Qed.

Lemma getAllImages_loop_fails (net : nat -> transport files_data)
      (msg : string) (pages : list files_payload) :
  forall (fuel k : nat) (images : list MediaAsset)
         (after0 : option string) (log : list page_request),
    streams net k pages ->
    failsWith (outcome (request (net (k + List.length pages)))) msg ->
    List.length pages < fuel ->
    getAllImages_loop fuel net k images after0 true log =
    Some {| listed := Err msg;
            page_requests :=
              log ++ cursorWalk after0 pages ++
              [{| first := 50; after := cursorAfter after0 pages |}] |}.
Proof.
  induction pages as [|p rest IH];
    intros fuel k images after0 log Hs Hfail Hf;
    (destruct fuel as [|fuel]; [simpl in Hf; lia|]);
    cbn [getAllImages_loop].
  - simpl in Hfail. rewrite Nat.add_0_r in Hfail.
    destruct Hfail as [->|[-> ->]]; reflexivity.
  - destruct Hs as [Hp [Hmore Hrest]]. rewrite Hp, Hmore.
    rewrite (IH fuel (S k)).
    + cbn [cursorWalk cursorAfter]. now rewrite <- app_assoc.
    + exact Hrest.
    + cbn [List.length] in Hfail.
      now replace (S k + List.length rest)
        with (k + S (List.length rest)) by lia.
    + simpl in Hf. lia.
Qed.

(** Extra X8.  When a listing request fails, or is answered without
    [files], after any number of pages were read, [getAllImages] throws
    the error and returns none of the assets read so far; the failing
    request was made with the end cursor of the last page read. *)
Theorem listing_failure_discards_pages (net : nat -> transport files_data)
        (pages : list files_payload) (msg : string) (fuel : nat) :
  streams net 0 pages ->
  failsWith (outcome (request (net (List.length pages)))) msg ->
  List.length pages < fuel ->
  getAllImages fuel net =
  Some {| listed := Err msg;
          page_requests :=
            cursorWalk None pages ++
            [{| first := 50; after := cursorAfter None pages |}] |}.
Proof.
  intros Hs Hfail Hf. unfold getAllImages.
  now rewrite (@getAllImages_loop_fails net msg pages fuel 0 [] None []).
Qed.

Lemma listing_failure_discards_pages_witness :
  getAllImages 2
    (fun k => if k =? 0 then Scenario.delivering (Some Scenario.pageOne)
              else fun _ => FetchThrows "socket hang up") =
  Some {| listed := Err "socket hang up";
          page_requests :=
            cursorWalk None [Scenario.pageOne] ++
            [{| first := 50;
                after := cursorAfter None [Scenario.pageOne] |}] |}.
Proof.
  apply (@listing_failure_discards_pages _ [Scenario.pageOne]
           "socket hang up" 2).
  - simpl. repeat split; reflexivity.
  - left. reflexivity.
  - simpl. lia.
Defined.

Lemma getAllImages_loop_starves (net : nat -> transport files_data) :
  (forall k, exists p, outcome (request (net k)) = Ok (Some p) /\
                       hasNextPage (pageInfo p) = true) ->
  forall (fuel k : nat) (images : list MediaAsset)
         (after0 : option string) (log : list page_request),
    getAllImages_loop fuel net k images after0 true log = None.
Proof.
  intros H. induction fuel as [|fuel IH]; intros k images after0 log;
    cbn [getAllImages_loop]; [reflexivity|].
  destruct (H k) as [p [-> ->]]. apply IH.
Qed.

(** Extra X9.  The listing loop has no bound of its own: against a
    remote that signals a next page after every page, [getAllImages]
    never returns, whatever the number of iterations allowed. *)
Theorem listing_never_ends_on_endless_remote
        (net : nat -> transport files_data) :
  (forall k, exists p, outcome (request (net k)) = Ok (Some p) /\
                       hasNextPage (pageInfo p) = true) ->
  forall fuel, getAllImages fuel net = None.
Proof.
  intros H fuel. unfold getAllImages. now apply getAllImages_loop_starves.
Qed.

Lemma listing_never_ends_on_endless_remote_witness :
  getAllImages 25
    (fun _ => Scenario.delivering (Some Scenario.pageOne)) = None.
Proof.
  apply (@listing_never_ends_on_endless_remote
           (fun _ => Scenario.delivering (Some Scenario.pageOne))).
  intros k. exists Scenario.pageOne. split; reflexivity.
Defined.

End ClientBehaviour.

(* ------------------------------------------------------------------ *)
(** ** The derived file name *)

Section FileNames.
Import Js Shopify Notions.

Lemma append_assoc (a b c : string) :
  ((a ++ b) ++ c = a ++ (b ++ c))%string.
Proof. induction a as [|x a IH]; simpl; congruence. Qed.

Lemma append_nil_r_string (a : string) : (a ++ EmptyString)%string = a.
Proof. induction a as [|x a IH]; simpl; congruence. Qed.

Lemma split_app (sep : ascii) (a b : string) :
  split sep (a ++ String sep b) = split sep a ++ split sep b.
Proof.
  induction a as [|c a IH]; cbn [String.append split].
  - now rewrite Ascii.eqb_refl.
  - destruct (Ascii.eqb c sep); rewrite IH; [reflexivity|].
    destruct (split sep a) eqn:E; [|reflexivity].
    now destruct (split_nonempty sep a).
Qed.

Lemma split_without_sep (sep : ascii) (s : string) :
  hasChar sep s = false -> split sep s = [s].
Proof.
  unfold hasChar. induction s as [|c t IH]; cbn [existsb split];
    [reflexivity|].
  intros H. apply orb_false_iff in H as [Hc Ht].
  rewrite Hc, (IH Ht). reflexivity.
Qed.

Lemma split_parts_without_sep (sep : ascii) (s x : string) :
  In x (split sep s) -> hasChar sep x = false.
Proof.
  unfold hasChar. revert x.
  induction s as [|c t IH]; intros x; cbn [split].
  - intros [<-|[]]. reflexivity.
  - destruct (Ascii.eqb c sep) eqn:Ec.
    + intros [<-|H]; [reflexivity | now apply IH].
    + destruct (split sep t) as [|h r] eqn:E.
      * intros [<-|[]]. cbn [existsb]. now rewrite Ec.
      * intros [<-|H].
        -- cbn [existsb]. rewrite Ec. apply IH. now left.
        -- apply IH. now right.
Qed.

Lemma split_parts_keep_absence (sep c : ascii) (s x : string) :
  hasChar c s = false -> In x (split sep s) -> hasChar c x = false.
Proof.
  unfold hasChar. revert x.
  induction s as [|a t IH]; intros x Hs; cbn [split].
  - intros [<-|[]]. reflexivity.
  - cbn [existsb] in Hs. apply orb_false_iff in Hs as [Ha Ht].
    destruct (Ascii.eqb a sep).
    + intros [<-|H]; [reflexivity | now apply IH].
    + destruct (split sep t) as [|h r] eqn:E.
      * intros [<-|[]]. cbn [existsb]. now rewrite Ha.
      * intros [<-|H].
        -- cbn [existsb]. rewrite Ha. apply IH; [exact Ht | now left].
        -- apply IH; [exact Ht | now right].
Qed.

Lemma last_In (A : Type) (l : list A) (d : A) :
  l <> [] -> In (last l d) l.
Proof.
  induction l as [|x l IH]; [congruence|]. intros _.
  destruct l as [|y l]; [now left|].
  right. apply IH. discriminate.
Qed.

Lemma hd_In (A : Type) (l : list A) (d : A) : l <> [] -> In (hd d l) l.
Proof. destruct l; [congruence | now left]. Qed.

Lemma last_app_nonempty (A : Type) (a b : list A) (d : A) :
  b <> [] -> last (a ++ b) d = last b d.
Proof.
  intros Hb. induction a as [|x a IH]; [reflexivity|].
  cbn [app]. destruct (a ++ b) eqn:E; [|exact IH].
  apply app_eq_nil in E as [_ E]. congruence.
Qed.

Lemma orElse_some (s d : string) :
  s <> EmptyString -> orElse (Some s) d = s.
Proof. destruct s; [congruence | reflexivity]. Qed.

(** Extra X10.  The file name derived for a listed record never holds
    a slash, whether it comes from the image URL or from the
    identifier. *)
Theorem filename_has_no_slash (e : edge) :
  hasChar "/" (filename (assetOfEdge e)) = false.
Proof.
  unfold assetOfEdge. cbn [filename].
  set (n := edge_node e).
  assert (Hid : hasChar "/" (last (split "/" (node_id n)) EmptyString)
                = false).
  { apply (@split_parts_without_sep "/" (node_id n)).
    apply last_In, split_nonempty. }
  destruct (truthy (nodeUrl n)); [|exact Hid].
  set (seg := last (split "/" (orElse (nodeUrl n) EmptyString))
                   EmptyString).
  assert (Hseg : hasChar "/" seg = false).
  { apply (@split_parts_without_sep "/"
             (orElse (nodeUrl n) EmptyString)).
    apply last_In, split_nonempty. }
  assert (Hhd : hasChar "/" (hd EmptyString (split "?" seg)) = false).
  { apply (@split_parts_keep_absence "?" "/" seg); [exact Hseg|].
    apply hd_In, split_nonempty. }
  destruct (hd EmptyString (split "?" seg)) as [|c t] eqn:E;
    [exact Hid | exact Hhd].
Qed.

(** Extra X11.  For a record whose image URL is [base/name] followed by
    nothing or by a query [?q] without slash, where [name] is not empty
    and holds neither a slash nor a question mark, the derived file name
    is [name]: the path before it and the query after it are dropped. *)
Theorem filename_is_last_segment_without_query
        (i : string) (a : option string) (base name rest : string) :
  name <> EmptyString ->
  hasChar "/" name = false ->
  hasChar "?" name = false ->
  rest = EmptyString \/
  (exists q, rest = String "?" q /\ hasChar "/" q = false) ->
  filename
    (assetOfEdge
       (recordWith i a (Some (base ++ String "/" (name ++ rest))%string)))
  = name.
Proof.
  intros Hne Hslash Hq Hrest.
  unfold assetOfEdge, recordWith, nodeUrl. cbn [filename edge_node image
    image_url node_id].
  set (u := (base ++ String "/" (name ++ rest))%string).
  assert (Hu : exists c t, u = String c t)
    by (unfold u; destruct base; simpl; eauto).
  destruct Hu as [c [t Hu]].
  assert (Htruthy : truthy (Some u) = true) by now rewrite Hu.
  assert (Hor : orElse (Some u) EmptyString = u) by now rewrite Hu.
  rewrite Htruthy, Hor. unfold u.
  rewrite split_app, last_app_nonempty by apply split_nonempty.
  assert (Hlast : last (split "/" (name ++ rest)) EmptyString =
                  (name ++ rest)%string).
  { rewrite split_without_sep; [reflexivity|].
    destruct Hrest as [->|[q [-> Hqs]]].
    - now rewrite append_nil_r_string.
    - unfold hasChar in *. clear - Hslash Hqs.
      induction name as [|x name IH]; cbn [String.append existsb] in *.
      + exact Hqs.
      + apply orb_false_iff in Hslash as [Hx Hn].
        rewrite Hx. now apply IH. }
  rewrite Hlast.
  assert (Hhd : hd EmptyString (split "?" (name ++ rest)) = name).
  { destruct Hrest as [->|[q [-> _]]].
    - rewrite append_nil_r_string, split_without_sep; [reflexivity|].
      exact Hq.
    - rewrite split_app, (split_without_sep "?" name Hq). reflexivity. }
  rewrite Hhd. now apply orElse_some.
Qed.

Lemma filename_is_last_segment_without_query_witness :
  filename
    (assetOfEdge
       (recordWith "gid://shopify/MediaImage/1" None
          (Some ("https://cdn.shopify.com/s" ++
                 String "/" ("DAK_Gallery_6-min.jpg" ++ "?v=1"))%string)))
  = "DAK_Gallery_6-min.jpg".
Proof.
  apply (@filename_is_last_segment_without_query
           "gid://shopify/MediaImage/1" None "https://cdn.shopify.com/s"
           "DAK_Gallery_6-min.jpg" "?v=1").
  - discriminate.
  - reflexivity.
  - reflexivity.
  - right. exists "v=1". split; reflexivity.
Defined.

(** Extra X12.  For a record without image URL whose identifier is
    [prefix/tail] with a tail free of slashes, the derived file name is
    that tail, and the asset keeps the identifier and the alt text of the
    record. *)
Theorem filename_falls_back_to_identifier
        (prefix tail : string) (a u : option string) :
  truthy u = false ->
  hasChar "/" tail = false ->
  assetOfEdge (recordWith (prefix ++ String "/" tail) a u) =
  {| id := (prefix ++ String "/" tail)%string;
     altText := a;
     filename := tail;
     url := EmptyString |}.
Proof.
  intros Hu Htail.
  unfold assetOfEdge, recordWith, nodeUrl. cbn [edge_node image image_url
    node_id alt].
  rewrite Hu, (orElse_falsy u EmptyString Hu).
  rewrite split_app, last_app_nonempty by apply split_nonempty.
  now rewrite (split_without_sep "/" tail Htail).
Qed.

Lemma filename_falls_back_to_identifier_witness :
  assetOfEdge
    (recordWith ("gid://shopify/MediaImage" ++ String "/" "4") None None) =
  {| id := ("gid://shopify/MediaImage" ++ String "/" "4")%string;
     altText := None;
     filename := "4";
     url := EmptyString |}.
Proof.
  apply (@filename_falls_back_to_identifier
           "gid://shopify/MediaImage" "4" None None); reflexivity.
Defined.

End FileNames.

(* ------------------------------------------------------------------ *)
(** ** When the fallback is accepted *)

Section FallbackBehaviour.
Import Js Gpt Notions.

Lemma length_underscoresToSpaces (s : string) :
  String.length (underscoresToSpaces s) = String.length s.
Proof. induction s as [|c t IH]; simpl; congruence. Qed.

Lemma hasDisallowed_append (a b : string) :
  hasDisallowed (a ++ b) = hasDisallowed a || hasDisallowed b.
Proof.
  unfold hasDisallowed. induction a as [|c a IH]; simpl; [reflexivity|].
  now rewrite IH, orb_assoc.
Qed.

Lemma toLowerCase_append (a b : string) :
  toLowerCase (a ++ b) = (toLowerCase a ++ toLowerCase b)%string.
Proof.
  unfold toLowerCase. induction a as [|c a IH]; simpl; congruence.
Qed.

Lemma includes_append_r (n a b : string) :
  includes n b = true -> includes n (a ++ b) = true.
Proof.
  intros H. induction a as [|c a IH]; [exact H|].
  cbn [String.append]. rewrite includes_cons, IH. apply orb_true_r.
Qed.

(** The text built on the fallback path, by the length [L] of the
    title's part before its first hyphen. *)
Lemma fallbackText_short (title : string) :
  String.length (beforeFirstHyphen title) < 31 ->
  fallbackText title =
  (underscoresToSpaces (beforeFirstHyphen title) ++
   " specialty coffee on Beans.ie from global roasters")%string.
Proof.
  intros HL. rewrite fallbackText_spec. unfold specFallbackText.
  set (seg := underscoresToSpaces (beforeFirstHyphen title)).
  assert (Hseg : String.length seg = String.length (beforeFirstHyphen title))
    by apply length_underscoresToSpaces.
  assert (Hbase : String.length (seg ++ " specialty coffee on Beans.ie")
                  = String.length seg + 29)
    by (rewrite length_append; reflexivity).
  destruct (Nat.ltb_spec
              (String.length (seg ++ " specialty coffee on Beans.ie")) 60)
    as [_|Hge]; [|lia].
  rewrite append_assoc. cbn [String.append].
  destruct (Nat.ltb_spec 125
              (String.length
                 (seg ++ " specialty coffee on Beans.ie from global roasters")))
    as [Hgt|_]; [|reflexivity].
  rewrite length_append in Hgt. simpl in Hgt. lia.
Qed.

Lemma fallbackText_medium (title : string) :
  31 <= String.length (beforeFirstHyphen title) <= 96 ->
  fallbackText title =
  (underscoresToSpaces (beforeFirstHyphen title) ++
   " specialty coffee on Beans.ie")%string.
Proof.
  intros HL. rewrite fallbackText_spec. unfold specFallbackText.
  set (seg := underscoresToSpaces (beforeFirstHyphen title)).
  assert (Hseg : String.length seg = String.length (beforeFirstHyphen title))
    by apply length_underscoresToSpaces.
  assert (Hbase : String.length (seg ++ " specialty coffee on Beans.ie")
                  = String.length seg + 29)
    by (rewrite length_append; reflexivity).
  destruct (Nat.ltb_spec
              (String.length (seg ++ " specialty coffee on Beans.ie")) 60)
    as [Hlt|_]; [lia|].
  destruct (Nat.ltb_spec 125
              (String.length (seg ++ " specialty coffee on Beans.ie")))
    as [Hgt|_]; [lia | reflexivity].
Qed.

Lemma suffixed_valid (seg suffix : string) :
  includes "coffee" (toLowerCase suffix) = true ->
  hasDisallowed suffix = false ->
  60 <= String.length seg + String.length suffix <= 125 ->
  fallbackValid (seg ++ suffix) = negb (hasDisallowed seg).
Proof.
  intros Hk Hc Hlen. unfold fallbackValid.
  rewrite length_append, toLowerCase_append, hasDisallowed_append, Hc.
  rewrite (includes_append_r _ _ _ Hk), orb_false_r.
  destruct (Nat.leb_spec 60 (String.length seg + String.length suffix));
    [|lia].
  destruct (Nat.leb_spec (String.length seg + String.length suffix) 125);
    [|lia].
  reflexivity.
Qed.

(** Extra X13.  A title whose part before the first hyphen is shorter
    than 10 characters has no fallback: even with both suffixes the text
    stays under 60 characters, so the fallback path returns null. *)
Theorem short_title_has_no_fallback (title : string) :
  String.length (beforeFirstHyphen title) < 10 ->
  fallback title = None.
Proof.
  intros HL. unfold fallback.
  rewrite fallbackText_short by lia. unfold fallbackValid.
  rewrite length_append, length_underscoresToSpaces. simpl String.length.
  destruct (Nat.leb_spec 60 (String.length (beforeFirstHyphen title) + 50));
    [lia | reflexivity].
Qed.

Lemma short_title_has_no_fallback_witness : fallback "4" = None.
Proof. apply short_title_has_no_fallback. simpl. lia. Defined.

(** Extra X14.  For a title whose part before the first hyphen has
    between 10 and 96 characters, the fallback is accepted exactly when
    that part, underscores turned into spaces, holds no disallowed
    character; the text is then that part followed by " specialty coffee
    on Beans.ie", and by " from global roasters" when the part is shorter
    than 31 characters. *)
Theorem fallback_accepted_iff_clean_segment (title : string) :
  10 <= String.length (beforeFirstHyphen title) <= 96 ->
  fallback title =
  if hasDisallowed (underscoresToSpaces (beforeFirstHyphen title))
  then None
  else Some (underscoresToSpaces (beforeFirstHyphen title) ++
             " specialty coffee on Beans.ie" ++
             (if (String.length (beforeFirstHyphen title) <? 31)%nat
              then " from global roasters" else ""))%string.
Proof.
  intros HL. unfold fallback.
  assert (Hseg := length_underscoresToSpaces (beforeFirstHyphen title)).
  destruct (Nat.ltb_spec (String.length (beforeFirstHyphen title)) 31)
    as [Hlt|Hge].
  - rewrite fallbackText_short by exact Hlt.
    rewrite suffixed_valid;
      [| reflexivity | reflexivity | rewrite Hseg; simpl; lia].
    now destruct (hasDisallowed _).
  - rewrite fallbackText_medium by lia.
    rewrite suffixed_valid;
      [| reflexivity | reflexivity | rewrite Hseg; simpl; lia].
    now destruct (hasDisallowed _).
Qed.

Lemma fallback_accepted_iff_clean_segment_witness :
  fallback "DAK_Gallery_6-min.jpg" =
  if hasDisallowed (underscoresToSpaces
                      (beforeFirstHyphen "DAK_Gallery_6-min.jpg"))
  then None
  else Some (underscoresToSpaces
               (beforeFirstHyphen "DAK_Gallery_6-min.jpg") ++
             " specialty coffee on Beans.ie" ++
             (if (String.length
                    (beforeFirstHyphen "DAK_Gallery_6-min.jpg") <? 31)%nat
              then " from global roasters" else ""))%string.
Proof.
  apply fallback_accepted_iff_clean_segment. simpl. lia.
Defined.

(** Extra X15.  The fallback reads the title up to its first hyphen
    only: whatever follows a hyphen changes neither the text nor whether
    it is accepted. *)
Theorem fallback_ignores_text_after_hyphen (a b : string) :
  fallbackText (a ++ String "-" b) =
    fallbackText (beforeFirstHyphen a) /\
  fallback (a ++ String "-" b) = fallback (beforeFirstHyphen a).
Proof.
  assert (H : hd EmptyString (split "-" (a ++ String "-" b)) =
              hd EmptyString (split "-" (beforeFirstHyphen a))).
  { rewrite split_app, !split_hd.
    assert (Hi : forall s, beforeFirstHyphen (beforeFirstHyphen s) =
                           beforeFirstHyphen s).
    { induction s as [|c t IH]; simpl; [reflexivity|].
      destruct (Ascii.eqb c "-") eqn:E; simpl; [reflexivity|].
      now rewrite E, IH. }
    rewrite Hi. destruct (split "-" a) eqn:E.
    - now destruct (split_nonempty "-" a).
    - rewrite <- (split_hd a), E. reflexivity. }
  assert (Ht : fallbackText (a ++ String "-" b) =
               fallbackText (beforeFirstHyphen a))
    by (unfold fallbackText; now rewrite H).
  split; [exact Ht|]. unfold fallback. now rewrite Ht.
Qed.

End FallbackBehaviour.

(* ------------------------------------------------------------------ *)
(** ** Behaviour of the generator *)

Section GeneratorBehaviour.
Import Js Gpt Notions.

Lemma model_first_step (remote : api) :
  model_loop maxAttempts remote 0 0 [] =
  match Gpt.try_body (remote 0) with
  | Gpt.Return altText =>
      Some {| returned := Some altText; api_calls := 1; backoffs := [] |}
  | Break => Some {| returned := None; api_calls := 1; backoffs := [] |}
  | Gpt.Throw msg =>
      if includes "rate limit" msg then model_loop 2 remote 1 1 [2000]
      else Some {| returned := None; api_calls := 1; backoffs := [] |}
  end.
Proof.
  unfold maxAttempts. cbn [model_loop]. unfold maxAttempts.
  change (0 <? 3) with true. change (0 <? 3 - 1) with true. cbv iota.
  destruct (Gpt.try_body (remote 0)) as [|t|msg]; try reflexivity.
  now rewrite andb_true_r.
Qed.

Lemma model_second_step (remote : api) :
  model_loop 2 remote 1 1 [2000] =
  match Gpt.try_body (remote 1) with
  | Gpt.Return altText =>
      Some {| returned := Some altText; api_calls := 2;
              backoffs := [2000] |}
  | Break =>
      Some {| returned := None; api_calls := 2; backoffs := [2000] |}
  | Gpt.Throw msg =>
      if includes "rate limit" msg
      then model_loop 1 remote 2 2 [2000; 4000]
      else Some {| returned := None; api_calls := 2; backoffs := [2000] |}
  end.
Proof.
  cbn [model_loop]. unfold maxAttempts.
  change (1 <? 3) with true. change (1 <? 3 - 1) with true. cbv iota.
  destruct (Gpt.try_body (remote 1)) as [|t|msg]; try reflexivity.
  now rewrite andb_true_r.
Qed.

Lemma model_third_step (remote : api) :
  model_loop 1 remote 2 2 [2000; 4000] =
  match Gpt.try_body (remote 2) with
  | Gpt.Return altText =>
      Some {| returned := Some altText; api_calls := 3;
              backoffs := [2000; 4000] |}
  | _ =>
      Some {| returned := None; api_calls := 3;
              backoffs := [2000; 4000] |}
  end.
Proof.
  cbn [model_loop]. unfold maxAttempts.
  change (2 <? 3) with true. change (2 <? 3 - 1) with false. cbv iota.
  destruct (Gpt.try_body (remote 2)) as [|t|msg]; try reflexivity.
  now rewrite andb_false_r.
Qed.

Lemma rateLimited_true (c : completion) :
  rateLimited c = true ->
  exists msg, Gpt.try_body c = Gpt.Throw msg /\
              includes "rate limit" msg = true.
Proof.
  destruct c as [msg| |raw]; try discriminate.
  intros H. now exists msg.
Qed.

Lemma rateLimited_false (c : completion) :
  rateLimited c = false ->
  match Gpt.try_body c with
  | Gpt.Throw msg => includes "rate limit" msg = false
  | _ => True
  end.
Proof.
  destruct c as [msg| |raw]; cbn [Gpt.try_body rateLimited]; trivial.
  intros _. destruct (accessibilityIssue (trim raw)); [reflexivity|trivial].
Qed.

(** The generation, from the run of the loop. *)
Lemma generateAltTag_of_loop (title : string) (remote : api)
      (r : loop_run) :
  model_loop maxAttempts remote 0 0 [] = Some r ->
  generateAltTag title remote =
  match returned r with
  | Some altText =>
      {| value := Some altText; from := FromModel; calls := api_calls r |}
  | None =>
      match fallback title with
      | Some text => {| value := Some text; from := FromFallback;
                        calls := api_calls r |}
      | None => {| value := None; from := FromNone; calls := api_calls r |}
      end
  end.
Proof.
  intros H. unfold generateAltTag. rewrite H.
  destruct r as [[t|] n w]; reflexivity.
Qed.

(** Extra X16.  Only a rate-limit error leads to a second call.  When
    the first call is anything else, the generation makes exactly one
    call: a clean answer is returned trimmed; a refusal, another error or
    an answer with an accessibility issue goes to the fallback without a
    retry. *)
Theorem generator_retries_only_rate_limits (title : string)
        (remote : api) :
  rateLimited (remote 0) = false ->
  calls (generateAltTag title remote) = 1 /\
  value (generateAltTag title remote) =
  match remote 0 with
  | Content raw =>
      if accessibilityIssue (trim raw) then fallback title
      else Some (trim raw)
  | _ => fallback title
  end.
Proof.
  intros H.
  assert (Hstep := model_first_step remote).
  assert (Hrl := rateLimited_false (remote 0) H).
  destruct (remote 0) as [msg| |raw] eqn:E; cbn [Gpt.try_body] in *.
  - rewrite Hrl in Hstep.
    rewrite (generateAltTag_of_loop title _ Hstep). cbn [returned api_calls].
    destruct (fallback title); now split.
  - rewrite (generateAltTag_of_loop title _ Hstep). cbn [returned api_calls].
    destruct (fallback title); now split.
  - destruct (accessibilityIssue (trim raw)).
    + rewrite Hrl in Hstep.
      rewrite (generateAltTag_of_loop title _ Hstep).
      cbn [returned api_calls]. destruct (fallback title); now split.
    + rewrite (generateAltTag_of_loop title _ Hstep). now split.
Qed.

Lemma generator_retries_only_rate_limits_witness :
  calls (generateAltTag "beans.jpg"
           (fun _ => ApiThrows "500 Internal Server Error")) = 1 /\
  value (generateAltTag "beans.jpg"
           (fun _ => ApiThrows "500 Internal Server Error")) =
  fallback "beans.jpg".
Proof.
  apply (@generator_retries_only_rate_limits "beans.jpg"
           (fun _ => ApiThrows "500 Internal Server Error")).
  reflexivity.
Defined.

Lemma try_body_clean (raw : string) :
  accessibilityIssue (trim raw) = false ->
  Gpt.try_body (Content raw) = Gpt.Return (trim raw).
Proof. intros H. cbn [Gpt.try_body]. now rewrite H. Qed.

(** Extra X17.  A clean answer that comes after rate-limit errors is
    returned: when the first k calls (k at most 2) fail with a rate-limit
    error and call k+1 answers a text without accessibility issue, the
    generation returns that text trimmed, from the model path, after k+1
    calls. *)
Theorem generator_returns_answer_after_rate_limits
        (title : string) (remote : api) (k : nat) (raw : string) :
  k < 3 ->
  (forall j, j < k -> rateLimited (remote j) = true) ->
  remote k = Content raw ->
  accessibilityIssue (trim raw) = false ->
  generateAltTag title remote =
  {| value := Some (trim raw); from := FromModel; calls := k + 1 |}.
Proof.
  intros Hk Hrl Hc Hclean.
  assert (Hret := try_body_clean raw Hclean).
  assert (Hloop : exists waits,
             model_loop maxAttempts remote 0 0 [] =
             Some {| returned := Some (trim raw); api_calls := k + 1;
                     backoffs := waits |}).
  { destruct k as [|[|[|k]]]; [| | |lia].
    - eexists. now rewrite model_first_step, Hc, Hret.
    - destruct (rateLimited_true _ (Hrl 0 ltac:(lia))) as [m0 [E0 R0]].
      eexists. rewrite model_first_step, E0, R0.
      now rewrite model_second_step, Hc, Hret.
    - destruct (rateLimited_true _ (Hrl 0 ltac:(lia))) as [m0 [E0 R0]].
      destruct (rateLimited_true _ (Hrl 1 ltac:(lia))) as [m1 [E1 R1]].
      eexists. rewrite model_first_step, E0, R0.
      rewrite model_second_step, E1, R1.
      now rewrite model_third_step, Hc, Hret. }
  destruct Hloop as [waits Hloop].
  now rewrite (generateAltTag_of_loop title _ Hloop).
Qed.

Lemma generator_returns_answer_after_rate_limits_witness :
  generateAltTag "beans.jpg"
    (fun j => if j <? 2 then ApiThrows "429 rate limit reached"
              else Content " Coffee beans in a bag ") =
  {| value := Some (trim " Coffee beans in a bag ");
     from := FromModel; calls := 2 + 1 |}.
Proof.
  apply (@generator_returns_answer_after_rate_limits "beans.jpg"
           (fun j => if j <? 2 then ApiThrows "429 rate limit reached"
                     else Content " Coffee beans in a bag ")
           2 " Coffee beans in a bag ").
  - lia.
  - intros [|[|j]] Hj; [reflexivity | reflexivity | lia].
  - reflexivity.
  - reflexivity.
Defined.

(** Extra X18.  When three calls in a row fail with a rate-limit error
    the generation stops: it has waited 2000 and 4000 ms (jitter apart),
    made three calls, and yields the fallback for the title. *)
Theorem generator_falls_back_after_three_rate_limits
        (title : string) (remote : api) :
  (forall j, j < 3 -> rateLimited (remote j) = true) ->
  model_loop maxAttempts remote 0 0 [] =
    Some {| returned := None; api_calls := 3;
            backoffs := [2000; 4000] |} /\
  calls (generateAltTag title remote) = 3 /\
  value (generateAltTag title remote) = fallback title.
Proof.
  intros Hrl.
  destruct (rateLimited_true _ (Hrl 0 ltac:(lia))) as [m0 [E0 R0]].
  destruct (rateLimited_true _ (Hrl 1 ltac:(lia))) as [m1 [E1 R1]].
  destruct (rateLimited_true _ (Hrl 2 ltac:(lia))) as [m2 [E2 R2]].
  assert (Hloop : model_loop maxAttempts remote 0 0 [] =
                  Some {| returned := None; api_calls := 3;
                          backoffs := [2000; 4000] |}).
  { rewrite model_first_step, E0, R0.
    rewrite model_second_step, E1, R1.
    now rewrite model_third_step, E2. }
  split; [exact Hloop|].
  rewrite (generateAltTag_of_loop title _ Hloop). cbn [returned api_calls].
  destruct (fallback title); now split.
Qed.

Lemma generator_falls_back_after_three_rate_limits_witness :
  model_loop maxAttempts (fun _ => ApiThrows "rate limit exceeded") 0 0 [] =
    Some {| returned := None; api_calls := 3;
            backoffs := [2000; 4000] |} /\
  calls (generateAltTag "beans.jpg"
           (fun _ => ApiThrows "rate limit exceeded")) = 3 /\
  value (generateAltTag "beans.jpg"
           (fun _ => ApiThrows "rate limit exceeded")) =
  fallback "beans.jpg".
Proof.
  apply (@generator_falls_back_after_three_rate_limits "beans.jpg"
           (fun _ => ApiThrows "rate limit exceeded")).
  intros j _. reflexivity.
Defined.

End GeneratorBehaviour.

(* ------------------------------------------------------------------ *)
(** ** The shape of the batches *)

Section BatchShape.
Import Js Shopify Index Notions.

Lemma length_batchUpdatesOf (w : World) (i : nat) (runs : list item_run) :
  List.length (batchUpdatesOf w i runs) = List.length runs.
Proof.
  rewrite (Permutation_length (batchUpdatesOf_perm w i runs)).
  apply List.length_map.
Qed.

Lemma length_slice_batch (A : Type) (l : list A) (i : nat) :
  List.length (slice i (i + batchSize) l) =
  Nat.min batchSize (List.length l - i).
Proof.
  unfold slice. replace (i + batchSize - i) with batchSize by lia.
  now rewrite length_firstn, length_skipn.
Qed.

(** The batches kept by the loop: numbered from 1, full except perhaps
    the last, and as many as needed. *)
Lemma batch_loop_shape (w : World) (dry : bool)
      (candidates : list MediaAsset) :
  forall (fuel i : nat) (st st' : loop_state),
    batch_loop fuel w dry candidates i st = Some st' ->
    i = batchSize * List.length (allUpdates st) ->
    (forall j b, nth_error (allUpdates st) j = Some b ->
                 batchShape (List.length candidates) j b) ->
    (allUpdates st = [] \/
     batchSize * (List.length (allUpdates st) - 1) <
     List.length candidates) ->
    (forall j b, nth_error (allUpdates st') j = Some b ->
                 batchShape (List.length candidates) j b) /\
    List.length candidates <= batchSize * List.length (allUpdates st') /\
    (allUpdates st' = [] \/
     batchSize * (List.length (allUpdates st') - 1) <
     List.length candidates).
Proof.
  induction fuel as [|fuel IH]; intros i st st';
    cbn [batch_loop];
    destruct (Nat.ltb_spec i (List.length candidates)) as [Hlt|Hge];
    try discriminate;
    try (intros Heq Hi Hshape Hlast; injection Heq as <-;
         split; [exact Hshape|];
         split; [unfold batchSize in *; lia | exact Hlast]).
  intros Hrun Hi Hshape Hlast.
  apply IH in Hrun; [exact Hrun | | |]; cbn [allUpdates].
  - rewrite length_app. cbn [List.length]. unfold batchSize in *. lia.
  - intros j b Hj.
    destruct (Nat.lt_ge_cases j (List.length (allUpdates st)))
      as [Hjl|Hjg].
    + rewrite nth_error_app1 in Hj by exact Hjl. now apply Hshape.
    + rewrite nth_error_app2 in Hj by exact Hjg.
      destruct (j - List.length (allUpdates st)) as [|m] eqn:Em;
        [|destruct m; discriminate].
      injection Hj as <-.
      assert (j = List.length (allUpdates st)) by lia. subst j.
      unfold batchShape. cbn [batch updates]. split.
      * change (fst (Nat.divmod i 4 0 4)) with (i / 5). f_equal.
        rewrite Hi. unfold batchSize. rewrite Nat.mul_comm.
        apply Nat.div_mul. lia.
      * rewrite length_batchUpdatesOf, length_launch, length_slice_batch.
        now rewrite Hi.
  - right. rewrite length_app. cbn [List.length].
    unfold batchSize in *. lia.
Qed.

Lemma try_block_loop (fuel : nat) (w : World) (dry : bool)
      (images : list MediaAsset) :
  discovers fuel w images ->
  mkdirError w = None ->
  exists st,
    batch_loop (List.length (imagesMissingAlt images)) w dry
               (imagesMissingAlt images) 0 initial = Some st /\
    try_block fuel w dry = Some {| final := st; caught := None |}.
Proof.
  intros [Hscopes [log Hlist]] Hmk.
  unfold try_block. rewrite Hscopes, Hlist. cbn [listed].
  destruct (imagesMissingAlt images) as [|c cs] eqn:Ec.
  - exists initial. split; reflexivity.
  - cbn [List.length Nat.eqb]. rewrite Hmk.
    destruct (batch_loop_accounts w dry (c :: cs)) as [st [Hrun _]].
    cbn [List.length] in Hrun. rewrite Hrun. now exists st.
Qed.

Lemma count_batches (n len : nat) :
  n <= 5 * len ->
  len = 0 \/ 5 * (len - 1) < n ->
  len = (n + 4) / 5.
Proof.
  intros Hle Hlast.
  apply (Nat.div_unique (n + 4) 5 len (n + 4 - 5 * len)); lia.
Qed.

(** Extra X19.  A run that reaches the batch loop with n candidates
    reports ceil(n/5) batches; the batch at position j (from 0) carries
    the number j+1 and has min(5, n - 5j) entries, so every batch but
    the last has five. *)
Theorem batches_are_numbered_chunks_of_five
        (fuel : nat) (w : World) (dry : bool) (images : list MediaAsset) :
  discovers fuel w images ->
  mkdirError w = None ->
  exists run,
    main fuel w dry = Some run /\
    List.length (reported run) =
      (List.length (imagesMissingAlt images) + 4) / 5 /\
    forall j b, nth_error (reported run) j = Some b ->
                batchShape (List.length (imagesMissingAlt images)) j b.
Proof.
  intros Hd Hmk.
  destruct (try_block_loop dry Hd Hmk) as [st [Hrun Htry]].
  exists (finalize w dry {| final := st; caught := None |}).
  unfold main. rewrite Htry. split; [reflexivity|].
  destruct (finalize_events w dry {| final := st; caught := None |})
    as [-> _]. cbn [final].
  destruct (@batch_loop_shape w dry (imagesMissingAlt images) _ 0
              initial st Hrun)
    as [Hshape [Hcover Hlast]]; cbn [allUpdates initial List.length].
  - unfold batchSize. lia.
  - intros [|j] b Hj; discriminate.
  - now left.
  - split; [|exact Hshape].
    unfold batchSize in *. apply count_batches; [exact Hcover|].
    destruct Hlast as [->|Hlast]; [now left | now right].
Qed.

Lemma seven_discovered :
  discovers 1 sevenStore (assetsOf [sevenPage]) /\
  mkdirError sevenStore = None /\
  List.length (imagesMissingAlt (assetsOf [sevenPage])) = 7.
Proof.
  split; [split; [reflexivity | eexists; reflexivity]|].
  split; reflexivity.
Qed.

Lemma batches_are_numbered_chunks_of_five_witness :
  exists run,
    main 1 sevenStore false = Some run /\
    List.length (reported run) =
      (List.length (imagesMissingAlt (assetsOf [sevenPage])) + 4) / 5 /\
    forall j b,
      nth_error (reported run) j = Some b ->
      batchShape (List.length (imagesMissingAlt (assetsOf [sevenPage])))
                 j b.
Proof.
  apply (@batches_are_numbered_chunks_of_five 1 sevenStore false
           (assetsOf [sevenPage])).
  - exact (proj1 seven_discovered).
  - reflexivity.
Defined.

End BatchShape.

(* ------------------------------------------------------------------ *)
(** ** The token budget *)

Section TokenBudget.
Import Js Shopify Index Notions.

Lemma pauses_app (a b : list event) :
  pauses (a ++ b) = pauses a ++ pauses b.
Proof.
  induction a as [|e a IH]; [reflexivity|].
  destruct e; simpl; now rewrite ?IH.
Qed.

Lemma processImage_pauses (w : World) (dry : bool) (k : nat)
      (image : MediaAsset) :
  pauses (item_events (processImage w dry k image)) = [].
Proof.
  unfold processImage.
  destruct dry; [reflexivity|].
  destruct (truthy _); [|reflexivity].
  destruct (updateImageAltTag _ _ _); reflexivity.
Qed.

Lemma launch_pauses (w : World) (dry : bool) (items : list MediaAsset) :
  forall i,
    pauses (concat (List.map item_events (launch w dry i items))) = [].
Proof.
  induction items as [|x items IH]; intros i; [reflexivity|].
  rewrite launch_cons. cbn [List.map concat].
  now rewrite pauses_app, processImage_pauses, IH.
Qed.

Lemma tokenThreshold_value : tokenThreshold = 27000%N.
Proof. reflexivity. Qed.

(** While the estimate plus 1000 tokens for each candidate still to come
    stays within the threshold, the loop never waits. *)
Lemma batch_loop_within_budget (w : World) (dry : bool)
      (candidates : list MediaAsset) :
  forall (fuel i : nat) (st st' : loop_state),
    batch_loop fuel w dry candidates i st = Some st' ->
    (estimatedTokensUsed st +
     1000 * N.of_nat (List.length candidates - i) <= 27000)%N ->
    pauses (trace st') = pauses (trace st).
Proof.
  induction fuel as [|fuel IH]; intros i st st';
    cbn [batch_loop];
    destruct (Nat.ltb_spec i (List.length candidates)) as [Hlt|Hge];
    try discriminate;
    try (intros [= <-] _; reflexivity).
  intros Hrun Hbudget.
  assert (Hlen := length_slice_batch candidates i).
  unfold batchSize in Hlen.
  assert (Hno : (tokenThreshold <?
                 estimatedTokensUsed st +
                 N.of_nat (List.length
                             (slice i (i + batchSize) candidates)) *
                 tokensPerRequest)%N = false).
  { rewrite tokenThreshold_value. apply N.ltb_ge.
    unfold tokensPerRequest, batchSize. rewrite Hlen. lia. }
  rewrite Hno in Hrun. apply IH in Hrun.
  - rewrite Hrun. cbn [trace].
    now rewrite !pauses_app, launch_pauses, !app_nil_r.
  - cbn [estimatedTokensUsed].
    unfold tokensPerRequest, batchSize in *. rewrite Hlen. lia.
Qed.

(** Extra X20.  A run with at most 27 candidates never waits for the
    token budget: the estimate of 1000 tokens for each of them stays
    within 90% of 30000. *)
Theorem no_pause_up_to_27_candidates
        (fuel : nat) (w : World) (dry : bool) (images : list MediaAsset) :
  discovers fuel w images ->
  mkdirError w = None ->
  List.length (imagesMissingAlt images) <= 27 ->
  exists run,
    main fuel w dry = Some run /\ pauses (events run) = [].
Proof.
  intros Hd Hmk Hn.
  destruct (try_block_loop dry Hd Hmk) as [st [Hrun Htry]].
  exists (finalize w dry {| final := st; caught := None |}).
  unfold main. rewrite Htry. split; [reflexivity|].
  apply batch_loop_within_budget in Hrun;
    [|cbn [estimatedTokensUsed initial]; lia].
  unfold finalize. cbn [final].
  destruct (0 <? List.length (allUpdates st)); cbn [events];
    rewrite ?pauses_app, Hrun; reflexivity.
Qed.

Lemma no_pause_up_to_27_candidates_witness :
  exists run,
    main 1 sevenStore false = Some run /\ pauses (events run) = [].
Proof.
  apply (@no_pause_up_to_27_candidates 1 sevenStore false
           (assetsOf [sevenPage])).
  - exact (proj1 seven_discovered).
  - reflexivity.
  - rewrite (proj2 (proj2 seven_discovered)). lia.
Defined.

Lemma batch_loop_trace_extends (w : World) (dry : bool)
      (candidates : list MediaAsset) :
  forall (fuel i : nat) (st st' : loop_state),
    batch_loop fuel w dry candidates i st = Some st' ->
    exists evs, trace st' = trace st ++ evs.
Proof.
  induction fuel as [|fuel IH]; intros i st st';
    cbn [batch_loop];
    destruct (i <? List.length candidates);
    try discriminate;
    try (intros [= <-]; exists []; now rewrite app_nil_r).
  intros Hrun. apply IH in Hrun as [evs Hevs]. cbn [trace] in Hevs.
  rewrite <- app_assoc in Hevs. eauto.
Qed.

(** With 28 candidates or more, the loop waits at the latest before its
    sixth batch. *)
Lemma batch_loop_exceeds_budget (w : World) (dry : bool)
      (candidates : list MediaAsset) :
  28 <= List.length candidates ->
  forall (fuel k : nat) (st st' : loop_state),
    batch_loop fuel w dry candidates (5 * k) st = Some st' ->
    k <= 5 ->
    estimatedTokensUsed st = (1000 * N.of_nat (5 * k))%N ->
    pauses (trace st') <> [].
Proof.
  intros Hn. induction fuel as [|fuel IH]; intros k st st';
    cbn [batch_loop];
    destruct (Nat.ltb_spec (5 * k) (List.length candidates)) as [Hlt|Hge];
    try discriminate; try lia.
  intros Hrun Hk Hest.
  assert (Hlen := length_slice_batch candidates (5 * k)).
  unfold batchSize in Hlen.
  destruct (Nat.eq_dec k 5) as [->|Hne].
  - assert (Hyes : (tokenThreshold <?
                    estimatedTokensUsed st +
                    N.of_nat (List.length
                                (slice (5 * 5) (5 * 5 + batchSize)
                                       candidates)) *
                    tokensPerRequest)%N = true).
    { rewrite tokenThreshold_value. apply N.ltb_lt.
      unfold tokensPerRequest, batchSize. rewrite Hlen, Hest. lia. }
    rewrite Hyes in Hrun.
    apply batch_loop_trace_extends in Hrun as [evs Hevs].
    cbn [trace] in Hevs. rewrite Hevs, !pauses_app. cbn [pauses app].
    intros E. apply app_eq_nil in E as [E _].
    apply app_eq_nil in E as [_ E]. discriminate.
  - assert (Hno : (tokenThreshold <?
                   estimatedTokensUsed st +
                   N.of_nat (List.length
                               (slice (5 * k) (5 * k + batchSize)
                                      candidates)) *
                   tokensPerRequest)%N = false).
    { rewrite tokenThreshold_value. apply N.ltb_ge.
      unfold tokensPerRequest, batchSize. rewrite Hlen, Hest. lia. }
    rewrite Hno in Hrun.
    replace (5 * k + batchSize) with (5 * S k) in Hrun
      by (unfold batchSize; lia).
    apply (IH (S k)) in Hrun; [exact Hrun | lia |].
    cbn [estimatedTokensUsed].
    replace (slice (5 * k) (5 * S k) candidates)
      with (slice (5 * k) (5 * k + 5) candidates) by (f_equal; lia).
    unfold tokensPerRequest. rewrite Hlen, Hest. lia.
Qed.

(** Extra X21.  A run with 28 candidates or more waits for the token
    budget at least once: five full batches bring the estimate to 25000
    and the sixth batch, of three candidates or more, would pass 27000. *)
Theorem pause_from_28_candidates
        (fuel : nat) (w : World) (dry : bool) (images : list MediaAsset) :
  discovers fuel w images ->
  mkdirError w = None ->
  28 <= List.length (imagesMissingAlt images) ->
  exists run,
    main fuel w dry = Some run /\ In 60000%N (pauses (events run)).
Proof.
  intros Hd Hmk Hn.
  destruct (try_block_loop dry Hd Hmk) as [st [Hrun Htry]].
  exists (finalize w dry {| final := st; caught := None |}).
  unfold main. rewrite Htry. split; [reflexivity|].
  assert (Hp : pauses (trace st) <> []).
  { apply (@batch_loop_exceeds_budget w dry (imagesMissingAlt images) Hn
             (List.length (imagesMissingAlt images)) 0 initial st Hrun);
      [lia | reflexivity]. }
  assert (Hin : In 60000%N (pauses (trace st))).
  { clear - Hrun Hp.
    assert (Hf : forall fuel i s s',
               batch_loop fuel w dry (imagesMissingAlt images) i s
               = Some s' ->
               Forall (eq 60000%N) (pauses (trace s)) ->
               Forall (eq 60000%N) (pauses (trace s'))).
    { induction fuel as [|fuel IH]; intros i s s';
        cbn [batch_loop];
        destruct (i <? List.length (imagesMissingAlt images));
        try discriminate; try (intros [= <-]; trivial).
      intros Hr Hs. apply IH in Hr; [exact Hr|]. cbn [trace].
      rewrite !pauses_app, launch_pauses, app_nil_r.
      apply Forall_app. split; [exact Hs|].
      match goal with |- context [if ?c then _ else _] => destruct c end;
        cbn [pauses]; auto. }
    specialize (Hf _ _ _ _ Hrun (Forall_nil _)).
    destruct (pauses (trace st)) as [|x l]; [congruence|].
    inversion Hf; subst. now left. }
  unfold finalize. cbn [final].
  destruct (0 <? List.length (allUpdates st)); cbn [events];
    rewrite ?pauses_app; [apply in_or_app; now left | exact Hin].
Qed.

Lemma crowded_discovered :
  discovers 1 crowdedStore (assetsOf [crowdedPage]) /\
  List.length (imagesMissingAlt (assetsOf [crowdedPage])) = 28.
Proof.
  split; [split; [reflexivity | eexists; reflexivity] | reflexivity].
Qed.

Lemma pause_from_28_candidates_witness :
  exists run,
    main 1 crowdedStore true = Some run /\
    In 60000%N (pauses (events run)).
Proof.
  apply (@pause_from_28_candidates 1 crowdedStore true
           (assetsOf [crowdedPage])).
  - exact (proj1 crowded_discovered).
  - reflexivity.
  - rewrite (proj2 crowded_discovered). lia.
Defined.

End TokenBudget.

(* ------------------------------------------------------------------ *)
(** ** What a run sends to the store and to the generator *)

Section RunTraffic.
Import Js Shopify Index Notions.

Lemma itemMutations_live (w : World) (k : nat) (image : MediaAsset) :
  itemMutations (processImage w false k image) = liveMutation w k image.
Proof.
  unfold itemMutations, processImage, liveMutation.
  destruct (Gpt.value (Gpt.generateAltTag (titleOf image) (openai w k)))
    as [[|c t]|]; cbn [truthy orElse]; try reflexivity.
  destruct (updateImageAltTag _ _ _); reflexivity.
Qed.

Lemma itemMutations_dry (w : World) (k : nat) (image : MediaAsset) :
  itemMutations (processImage w true k image) = [].
Proof. reflexivity. Qed.

Lemma launch_indexed (w : World) (dry : bool)
      (candidates : list MediaAsset) :
  launch w dry 0 candidates =
  List.map (fun p => processImage w dry (fst p) (snd p))
           (indexed candidates).
Proof. reflexivity. Qed.

Lemma flat_map_map (A B C : Type) (f : A -> B) (g : B -> list C)
      (l : list A) :
  flat_map g (List.map f l) = flat_map (fun x => g (f x)) l.
Proof. induction l as [|x l IH]; simpl; congruence. Qed.

(** Extra X22.  In live mode a run that reaches the batch loop issues
    one write mutation for each candidate whose generated text is neither
    null nor empty, with that text and the candidate's identifier, and
    none for the other candidates. *)
Theorem live_run_writes_each_generated_text
        (fuel : nat) (w : World) (images : list MediaAsset) :
  discovers fuel w images ->
  mkdirError w = None ->
  exists run,
    main fuel w false = Some run /\
    mutations (events run) =
    flat_map (fun p => liveMutation w (fst p) (snd p))
             (indexed (imagesMissingAlt images)).
Proof.
  intros Hd Hmk.
  destruct (main_discovered false Hd Hmk)
    as [run [Hrun [_ [_ [_ [Hmut _]]]]]].
  exists run. split; [exact Hrun|].
  rewrite Hmut, launch_indexed, flat_map_map.
  apply flat_map_ext. intros p. apply itemMutations_live.
Qed.

Lemma live_run_writes_each_generated_text_witness :
  exists run,
    main 2 Scenario.store false = Some run /\
    mutations (events run) =
    flat_map (fun p => liveMutation Scenario.store (fst p) (snd p))
             (indexed (imagesMissingAlt Scenario.listedImages)).
Proof.
  apply (@live_run_writes_each_generated_text 2 Scenario.store
           Scenario.listedImages).
  - exact (proj1 scenario_discovered).
  - reflexivity.
Defined.








End RunTraffic.

(* ------------------------------------------------------------------ *)
(** ** Runs that end early, and edge cases of one candidate *)

Section EarlyEnds.
Import Js Shopify Index Notions.

(** Extra X25.  A failure of the set-up ends the run before any
    generation or mutation and without report, with the error logged:
    when the scope request fails, when the listing fails, and when the
    preparation of the output fails although there are candidates. *)
Theorem setup_failure_aborts_silently
        (fuel : nat) (w : World) (dry : bool) (msg : string) :
  (verifyScopes requiredScopes (scopesNet w) = Err msg ->
   main fuel w dry = Some (abortedRun msg)) /\
  (verifyScopes requiredScopes (scopesNet w) = Ok true ->
   (exists log, getAllImages fuel (filesNet w) =
                Some {| listed := Err msg; page_requests := log |}) ->
   main fuel w dry = Some (abortedRun msg)) /\
  (forall images,
      discovers fuel w images ->
      imagesMissingAlt images <> [] ->
      mkdirError w = Some msg ->
      main fuel w dry = Some (abortedRun msg)).
Proof.
  unfold main, try_block. split; [|split].
  - intros ->. reflexivity.
  - intros -> [log ->]. reflexivity.
  - intros images [-> [log ->]] Hne ->. cbn [listed].
    destruct (imagesMissingAlt images); [congruence | reflexivity].
Qed.

Lemma setup_failure_aborts_silently_witness :
  main 2
    {| scopesNet := fun _ => FetchThrows "getaddrinfo ENOTFOUND";
       filesNet := filesNet Scenario.store;
       updateNet := updateNet Scenario.store;
       openai := openai Scenario.store;
       mkdirError := None;
       writeFileError := None;
       settleTime := settleTime Scenario.store |} false =
  Some (abortedRun "getaddrinfo ENOTFOUND").
Proof.
  apply (proj1 (@setup_failure_aborts_silently 2 _ false
                  "getaddrinfo ENOTFOUND")).
  reflexivity.
Defined.

(** Extra X26.  When the listing holds no candidate (every asset has an
    alt text or is an SVG), the run ends normally without a generator
    call, a mutation, a wait or a report, and nothing is logged as a
    failure. *)
Theorem no_candidate_no_report
        (fuel : nat) (w : World) (dry : bool) (images : list MediaAsset) :
  discovers fuel w images ->
  (forall image, In image images -> isCandidate image = false) ->
  main fuel w dry =
  Some {| reported := []; events := []; failure := None; saved := None |}.
Proof.
  intros [Hs [log Hl]] Hnone.
  assert (Hc : imagesMissingAlt images = []).
  { unfold imagesMissingAlt. clear - Hnone.
    induction images as [|x l IH]; [reflexivity|]. cbn [filter].
    rewrite (Hnone x (or_introl eq_refl)). apply IH.
    intros image Hin. apply Hnone. now right. }
  unfold main, try_block. rewrite Hs, Hl. cbn [listed]. rewrite Hc.
  reflexivity.
Qed.

Lemma no_candidate_no_report_witness :
  main 1
    {| scopesNet := scopesNet Scenario.store;
       filesNet :=
         fun _ =>
           Scenario.delivering
             (Some {| edges :=
                        [Scenario.mediaNode "gid://shopify/MediaImage/2"
                           (Some "Coffee bag")
                           (Some "https://cdn.shopify.com/s/bag.png")];
                      pageInfo := {| hasNextPage := false;
                                     endCursor := None |} |});
       updateNet := updateNet Scenario.store;
       openai := openai Scenario.store;
       mkdirError := Some "EACCES";
       writeFileError := None;
       settleTime := settleTime Scenario.store |} true =
  Some {| reported := []; events := []; failure := None; saved := None |}.
Proof.
  eapply no_candidate_no_report.
  - split; [reflexivity | eexists; reflexivity].
  - intros image [<-|[]]. reflexivity.
Defined.

Lemma trim_blank (raw : string) :
  forallb isWhiteSpace raw = true -> trim raw = EmptyString.
Proof. apply trim_empty_iff. Qed.

(** Extra X27.  An answer made of white space only is not replaced by
    the fallback: the generator returns the empty string after one call.
    A dry run records the empty string; a live run issues no mutation for
    the candidate and records a null [altTag] without error. *)
Theorem blank_answer_bypasses_fallback
        (w : World) (k : nat) (image : MediaAsset) (raw : string) :
  openai w k 0 = Gpt.Content raw ->
  forallb isWhiteSpace raw = true ->
  Gpt.generateAltTag (titleOf image) (openai w k) =
    {| Gpt.value := Some EmptyString; Gpt.from := Gpt.FromModel;
       Gpt.calls := 1 |} /\
  entry (processImage w true k image) =
    {| imageId := id image; altTag := Some EmptyString;
       imageUrl := url image; error := None |} /\
  processImage w false k image =
    {| entry := {| imageId := id image; altTag := None;
                   imageUrl := url image; error := None |};
       item_events := [EvGenerate (url image) (titleOf image)] |}.
Proof.
  intros Hc Hblank.
  assert (Hg : Gpt.generateAltTag (titleOf image) (openai w k) =
               {| Gpt.value := Some EmptyString; Gpt.from := Gpt.FromModel;
                  Gpt.calls := 1 |}).
  { assert (Hloop :
              Gpt.model_loop Gpt.maxAttempts (openai w k) 0 0 [] =
              Some {| Gpt.returned := Some EmptyString; Gpt.api_calls := 1;
                      Gpt.backoffs := [] |}).
    { rewrite model_first_step, Hc. cbn [Gpt.try_body].
      now rewrite (trim_blank raw Hblank). }
    now rewrite (generateAltTag_of_loop (titleOf image) _ Hloop). }
  split; [exact Hg|].
  unfold processImage. rewrite Hg. now split.
Qed.

Lemma blank_answer_bypasses_fallback_witness :
  Gpt.generateAltTag (titleOf Scenario.dakImage)
                     (Scenario.answering "   ") =
    {| Gpt.value := Some EmptyString; Gpt.from := Gpt.FromModel;
       Gpt.calls := 1 |} /\
  entry (processImage
           {| scopesNet := scopesNet Scenario.store;
              filesNet := filesNet Scenario.store;
              updateNet := updateNet Scenario.store;
              openai := fun _ => Scenario.answering "   ";
              mkdirError := None;
              writeFileError := None;
              settleTime := settleTime Scenario.store |}
           true 0 Scenario.dakImage) =
    {| imageId := id Scenario.dakImage; altTag := Some EmptyString;
       imageUrl := url Scenario.dakImage; error := None |} /\
  processImage
    {| scopesNet := scopesNet Scenario.store;
       filesNet := filesNet Scenario.store;
       updateNet := updateNet Scenario.store;
       openai := fun _ => Scenario.answering "   ";
       mkdirError := None;
       writeFileError := None;
       settleTime := settleTime Scenario.store |}
    false 0 Scenario.dakImage =
    {| entry := {| imageId := id Scenario.dakImage; altTag := None;
                   imageUrl := url Scenario.dakImage; error := None |};
       item_events :=
         [EvGenerate (url Scenario.dakImage)
                     (titleOf Scenario.dakImage)] |}.
Proof.
  apply (@blank_answer_bypasses_fallback
           {| scopesNet := scopesNet Scenario.store;
              filesNet := filesNet Scenario.store;
              updateNet := updateNet Scenario.store;
              openai := fun _ => Scenario.answering "   ";
              mkdirError := None;
              writeFileError := None;
              settleTime := settleTime Scenario.store |}
           0 Scenario.dakImage "   "); reflexivity.
Defined.

(** Extra X28.  In live mode, when the mutation for a candidate with a
    generated text fails, the candidate is recorded with a null [altTag]
    and the error, although the mutation was issued: with the message of
    the request when the request fails, and with "Failed to update image
    <id>: " followed by all reported messages joined by ", " when the
    store reports user errors. *)
Theorem failed_mutation_is_recorded
        (w : World) (k : nat) (image : MediaAsset) (c : ascii)
        (t : string) :
  Gpt.value (Gpt.generateAltTag (titleOf image) (openai w k)) =
    Some (String c t) ->
  (forall msg,
      outcome (request (updateNet w k)) = Err msg ->
      processImage w false k image =
      {| entry := {| imageId := id image; altTag := None;
                     imageUrl := url image; error := Some msg |};
         item_events := [EvGenerate (url image) (titleOf image);
                         EvUpdate (id image) (String c t)] |}) /\
  (forall m ms,
      outcome (request (updateNet w k)) = Ok (Some (Some (m :: ms))) ->
      processImage w false k image =
      {| entry :=
           {| imageId := id image; altTag := None; imageUrl := url image;
              error := Some ("Failed to update image " ++ id image ++ ": "
                             ++ join ", " (m :: ms))%string |};
         item_events := [EvGenerate (url image) (titleOf image);
                         EvUpdate (id image) (String c t)] |}).
Proof.
  intros Hv. unfold processImage, updateImageAltTag. rewrite Hv.
  cbn [truthy orElse]. split.
  - intros msg ->. reflexivity.
  - intros m ms ->. reflexivity.
Qed.

Lemma failed_mutation_is_recorded_witness :
  processImage
    {| scopesNet := scopesNet Scenario.store;
       filesNet := filesNet Scenario.store;
       updateNet :=
         fun _ => Scenario.delivering
                    (Some (Some ["Alt is too long"; "File is locked"]));
       openai := openai Scenario.store;
       mkdirError := None;
       writeFileError := None;
       settleTime := settleTime Scenario.store |}
    false 0 Scenario.dakImage =
  {| entry :=
       {| imageId := id Scenario.dakImage; altTag := None;
          imageUrl := url Scenario.dakImage;
          error := Some ("Failed to update image " ++ id Scenario.dakImage
                         ++ ": " ++
                         join ", " ["Alt is too long"; "File is locked"])%string |};
     item_events := [EvGenerate (url Scenario.dakImage)
                                (titleOf Scenario.dakImage);
                     EvUpdate (id Scenario.dakImage)
                       (String "D"
                          "AK Gallery 6 specialty coffee on Beans.ie from global roasters")] |}.
Proof.
  apply (proj2
           (@failed_mutation_is_recorded
              {| scopesNet := scopesNet Scenario.store;
                 filesNet := filesNet Scenario.store;
                 updateNet :=
                   fun _ => Scenario.delivering
                              (Some (Some ["Alt is too long";
                                           "File is locked"]));
                 openai := openai Scenario.store;
                 mkdirError := None;
                 writeFileError := None;
                 settleTime := settleTime Scenario.store |}
              0 Scenario.dakImage "D"
              "AK Gallery 6 specialty coffee on Beans.ie from global roasters"
              eq_refl)).
  reflexivity.
Defined.

End EarlyEnds.
